(** * proctl: the process-control engine of the debugger

    A shallow embedding of [proctl/proctl_linux_amd64.go]: the breakpoint
    table ([Break], [Clear]), the stepping engine ([Step], [Continue],
    [Next], [continueToReturnAddress], [clearTempBreakpoint]) and the
    memory readers of the variable evaluator ([extractValue],
    [readString], [readIntSlice], ...).

    The debugger talks to the tracee only through ptrace(2) and wait4(2).
    The kernel side is a parameter of the development (record [Kernel]);
    the Go code is written once, over any kernel, in a state monad whose
    state is the [DebuggedProcess] struct together with the tracee.  A
    small scripted tracee ([Sim]) gives a kernel to run the code on. *)

From Stdlib Require Import ZArith Lia.
From stdpp Require Import base option list gmap strings pretty.

Local Open Scope Z_scope.
Local Open Scope string_scope.

(** ** Machine integers *)

(** [uint64] and [uintptr] values are integers in [0, 2^64); arithmetic
    on them wraps around. *)
Definition u64 (z : Z) : Z := z mod 2 ^ 64.

(** [binary.LittleEndian.Uint64(b)]: the first eight bytes of [b], least
    significant first. *)
Fixpoint le_decode (bs : list Z) : Z :=
  match bs with
  | [] => 0
  | b :: rest => b + 256 * le_decode rest
  end.

Definition Uint64 (b : list Z) : Z := le_decode (take 8 b).

(** [int64] arithmetic wraps into [-2^63, 2^63); [int64(n)] and [int(n)]
    of a [uint64] reinterpret it the same way. *)
Definition i64 (z : Z) : Z := (z + 2 ^ 63) mod 2 ^ 64 - 2 ^ 63.

(** [bytes.IndexByte(s, c)] *)
Fixpoint IndexByte (s : list Z) (c : Z) : Z :=
  match s with
  | [] => -1
  | b :: rest =>
    if decide (b = c) then 0
    else let i := IndexByte rest c in if decide (i = -1) then -1 else 1 + i
  end.

(** The Go string that shares the bytes of a [[]byte]. *)
Fixpoint string_of_bytes (bs : list Z) : string :=
  match bs with
  | [] => EmptyString
  | b :: rest => String (Ascii.ascii_of_N (Z.to_N b)) (string_of_bytes rest)
  end.

(** The loop [for { err := binary.Read(buf, binary.LittleEndian, &number);
    if err != nil { break }; members = append(members, number) }] over a
    [bytes.Buffer]: one element per complete group of eight bytes. *)
Fixpoint read_uint64s (buf : list Z) : list Z :=
  match buf with
  | b0 :: b1 :: b2 :: b3 :: b4 :: b5 :: b6 :: b7 :: rest =>
    le_decode [b0; b1; b2; b3; b4; b5; b6; b7] :: read_uint64s rest
  | _ => []
  end.

(** [%d] on an integer and on a slice of integers. *)
Definition fmt_d (n : Z) : string := pretty n.
Definition fmt_d_slice (l : list Z) : string :=
  "[" ++ String.concat " " (map fmt_d l) ++ "]".

(** ** Data model *)

(** [syscall.PtraceRegs], restricted to the two registers the engine
    reads and writes. *)
Record PtraceRegs := mkRegs { Rip : Z; Rsp : Z }.

Definition PC (regs : PtraceRegs) : Z := Rip regs.
Definition SetPC (regs : PtraceRegs) (pc : Z) : PtraceRegs :=
  {| Rip := pc; Rsp := Rsp regs |}.

(** [gosym.Func], restricted to what the engine reads. *)
Record Func := mkFunc { Name : string; Entry : Z }.

Record BreakPoint := mkBreakPoint {
  FunctionName : string;
  File : string;
  Line : Z;
  Addr : Z;
  OriginalData : list Z
}.

(** [dwarf.Type], the cases [extractValue] switches on; every other
    type is [OtherType]. *)
Inductive dwarfType :=
| TypedefType (name : string) (underlying : dwarfType)
| PtrType (pointee : dwarfType)
| StructType (StructName : string) (Field : list StructField)
| ArrayType (ByteSize : Z) (elem : dwarfType)
| IntType (name : string)
| FloatType (name : string)
| OtherType (name : string)
with StructField :=
| mkStructField (FieldName : string) (ByteOffset : Z) (FieldType : dwarfType).

(** Go [error] values.  [fmt.Errorf] results keep their format string and
    their operand instead of the rendered text. *)
Inductive error :=
| SyscallError (errno : Z)
| InvalidAddressError (address : Z)
| BreakPointExistsError (file : string) (line : Z) (addr : Z)
| Errorf_uint (format : string) (v : Z)
| Errorf_err (format : string) (operand : error)
| Errorf_text (format : string) (operand : error)
| Errorf_type (format : string) (typ : dwarfType)
| OracleError (msg : string).

Definition ESRCH : Z := 3.
Definition EIO : Z := 5.
Definition ECHILD : Z := 10.

Definition is_ECHILD (e : error) : bool :=
  match e with
  | SyscallError n => bool_decide (n = ECHILD)
  | _ => false
  end.

(** ** [syscall.WaitStatus] (linux) *)

Definition WaitStatus := Z.
Definition SIGTRAP : Z := 5.

Definition Exited (w : WaitStatus) : bool := bool_decide (Z.land w 0x7F = 0).
Definition Stopped (w : WaitStatus) : bool := bool_decide (Z.land w 0xFF = 0x7F).
Definition StopSignal (w : WaitStatus) : Z :=
  if Stopped w then Z.land (Z.shiftr w 8) 0xFF else -1.
Definition TrapCause (w : WaitStatus) : Z :=
  if decide (StopSignal w = SIGTRAP) then Z.shiftr (Z.shiftr w 8) 8 else -1.

(** ** The kernel *)

(** What ptrace(2) and wait4(2) do to a tracee of type [W].  A request
    returns its errno ([None]: success) and the tracee afterwards; reads
    leave the tracee as it is. *)
Record Kernel (W : Type) := mkKernel {
  PtraceGetRegs : W → Z + PtraceRegs;
  PtraceSetRegs : PtraceRegs → W → option Z * W;
  peek_byte : Z → W → Z + Z;
  PtracePokeData : Z → list Z → W → option Z * W;
  PtraceSingleStep : W → option Z * W;
  PtraceCont : Z → W → option Z * W;
  Wait4 : W → (Z + WaitStatus) * W
}.
Arguments PtraceGetRegs {W} _ _.
Arguments PtraceSetRegs {W} _ _ _.
Arguments peek_byte {W} _ _ _.
Arguments PtracePokeData {W} _ _ _ _.
Arguments PtraceSingleStep {W} _ _.
Arguments PtraceCont {W} _ _ _.
Arguments Wait4 {W} _ _.

(** [syscall.PtracePeekData(pid, addr, out)] and [PtracePeekText]: fill a
    buffer of [n] bytes from [addr] on; the first byte that cannot be
    read fails the call. *)
Fixpoint peek_bytes {W} (K : Kernel W) (addr : Z) (n : nat) (w : W) : Z + list Z :=
  match n with
  | O => inr []
  | S n' =>
    match peek_byte K addr w with
    | inl e => inl e
    | inr b =>
      match peek_bytes K (u64 (addr + 1)) n' w with
      | inl e => inl e
      | inr bs => inr (b :: bs)
      end
    end
  end.

(** The requests the debugger sends, in order (ghost state: the source
    keeps no such log). *)
Inductive KReq :=
| KGetRegs
| KSetRegs (regs : PtraceRegs)
| KPeekData (addr : Z) (n : nat)
| KPeekText (addr : Z) (n : nat)
| KPokeData (addr : Z) (data : list Z)
| KSingleStep
| KCont (sig : Z)
| KWait.

(** The symbol/line oracle, the frame oracle, the location-expression
    evaluator and the float formatter are external to the package; so is
    the allocation limit of the Go runtime. *)
Record FrameDescriptionEntry := mkFDE {
  Cover : Z → bool;
  ReturnAddressOffset : Z → Z;
  CFAOffset : Z → Z
}.

Record Image := mkImage {
  PCToLine : Z → string * Z * option Func;
  FDEForPC : Z → error + FrameDescriptionEntry;
  ExecuteStackProgram : Z → list Z → error + Z;
  FormatFloat : list Z → string;
  maxAlloc : Z
}.

(** ** [DebuggedProcess] *)

Record DebuggedProcess (W : Type) := mkDbp {
  Regs : PtraceRegs;
  ProcessState : option WaitStatus;
  BreakPoints : gmap Z BreakPoint;
  tracee : W;
  stdout : list (Z * Z);
  ktrace : list KReq
}.
Arguments mkDbp {W} _ _ _ _ _ _.
Arguments Regs {W} _.
Arguments ProcessState {W} _.
Arguments BreakPoints {W} _.
Arguments tracee {W} _.
Arguments stdout {W} _.
Arguments ktrace {W} _.

Definition set_Regs {W} (r : PtraceRegs) (s : DebuggedProcess W) :=
  mkDbp r (ProcessState s) (BreakPoints s) (tracee s) (stdout s) (ktrace s).
Definition set_ProcessState {W} (ps : option WaitStatus) (s : DebuggedProcess W) :=
  mkDbp (Regs s) ps (BreakPoints s) (tracee s) (stdout s) (ktrace s).
Definition set_BreakPoints {W} (b : gmap Z BreakPoint) (s : DebuggedProcess W) :=
  mkDbp (Regs s) (ProcessState s) b (tracee s) (stdout s) (ktrace s).
Definition set_tracee {W} (w : W) (s : DebuggedProcess W) :=
  mkDbp (Regs s) (ProcessState s) (BreakPoints s) w (stdout s) (ktrace s).
Definition print {W} (line : Z * Z) (s : DebuggedProcess W) :=
  mkDbp (Regs s) (ProcessState s) (BreakPoints s) (tracee s) (stdout s ++ [line]) (ktrace s).
Definition record {W} (q : KReq) (s : DebuggedProcess W) :=
  mkDbp (Regs s) (ProcessState s) (BreakPoints s) (tracee s) (stdout s) (ktrace s ++ [q]).

(** ** The monad: state, Go panics, and loops that are cut off *)

Inductive Outcome (S A : Type) :=
| Done (a : A) (s : S)
| Panic (msg : string)
| OutOfFuel.
Arguments Done {S A} _ _.
Arguments Panic {S A} _.
Arguments OutOfFuel {S A}.

Definition M (S A : Type) := S → Outcome S A.

#[global] Instance M_ret {S} : MRet (M S) := fun A a s => Done a s.
#[global] Instance M_bind {S} : MBind (M S) := fun A B f m s =>
  match m s with
  | Done a s' => f a s'
  | Panic msg => Panic msg
  | OutOfFuel => OutOfFuel
  end.

Definition ret {S A} (a : A) : M S A := mret a.
Definition gets {S A} (f : S → A) : M S A := fun s => Done (f s) s.
Definition modify {S} (f : S → S) : M S unit := fun s => Done tt (f s).
Definition panic {S A} (msg : string) : M S A := fun _ => Panic msg.

Definition nil_pointer_dereference : string :=
  "runtime error: invalid memory address or nil pointer dereference".
Definition slice_bounds_out_of_range : string :=
  "runtime error: slice bounds out of range".
Definition makeslice_len_out_of_range : string :=
  "runtime error: makeslice: len out of range".
Definition makeslice_cap_out_of_range : string :=
  "runtime error: makeslice: cap out of range".

Section Proctl.

Context {W : Type} (K : Kernel W) (img : Image).

Abbreviation Go A := (M (DebuggedProcess W) A).

(** *** ptrace and wait4 requests on [dbp.Pid] *)

Definition sys_PtraceGetRegs : Go (option Z) :=
  modify (record KGetRegs);;
  w ← gets tracee;
  match PtraceGetRegs K w with
  | inl e => ret (Some e)
  | inr r => modify (set_Regs r) ;; ret None
  end.

Definition sys_PtraceSetRegs (regs : PtraceRegs) : Go (option Z) :=
  modify (record (KSetRegs regs));;
  w ← gets tracee;
  let '(e, w') := PtraceSetRegs K regs w in
  modify (set_tracee w') ;; ret e.

Definition sys_PtracePeekData (addr : Z) (n : nat) : Go (Z + list Z) :=
  modify (record (KPeekData addr n));;
  w ← gets tracee;
  ret (peek_bytes K addr n w).

Definition sys_PtracePeekText (addr : Z) (n : nat) : Go (Z + list Z) :=
  modify (record (KPeekText addr n));;
  w ← gets tracee;
  ret (peek_bytes K addr n w).

Definition sys_PtracePokeData (addr : Z) (data : list Z) : Go (option Z) :=
  modify (record (KPokeData addr data));;
  w ← gets tracee;
  let '(e, w') := PtracePokeData K addr data w in
  modify (set_tracee w') ;; ret e.

Definition sys_PtraceSingleStep : Go (option Z) :=
  modify (record KSingleStep);;
  w ← gets tracee;
  let '(e, w') := PtraceSingleStep K w in
  modify (set_tracee w') ;; ret e.

Definition sys_PtraceCont (sig : Z) : Go (option Z) :=
  modify (record (KCont sig));;
  w ← gets tracee;
  let '(e, w') := PtraceCont K sig w in
  modify (set_tracee w') ;; ret e.

(** [wait(pid)] *)
Definition wait : Go (option WaitStatus * option error) :=
  modify (record KWait);;
  w ← gets tracee;
  let '(r, w') := Wait4 K w in
  modify (set_tracee w');;
  match r with
  | inl e => ret (None, Some (SyscallError e))
  | inr status => ret (Some status, None)
  end.

(** *** Registers *)

(** [Registers()] fills the cache [dbp.Regs] and returns a pointer to
    it: the callers' [regs] is the cache itself, read with [gets Regs]. *)
Definition Registers : Go (option error) :=
  e ← sys_PtraceGetRegs;
  match e with
  | Some e => ret (Some (Errorf_err "Registers():" (SyscallError e)))
  | None => ret None
  end.

Definition CurrentPC : Go (Z * option error) :=
  err ← Registers;
  match err with
  | Some e => ret (0, Some e)
  | None => regs ← gets Regs; ret (Rip regs, None)
  end.

(** *** The breakpoint table *)

Definition int3 : list Z := [0xCC].

Definition Break (addr : Z) : Go (option BreakPoint * option error) :=
  let '(f, l, fn) := PCToLine img addr in
  match fn with
  | None => ret (None, Some (InvalidAddressError addr))
  | Some fn =>
    r ← sys_PtracePeekData addr 1;
    match r with
    | inl e => ret (None, Some (SyscallError e))
    | inr originalData =>
      if decide (originalData = int3)
      then ret (None, Some (BreakPointExistsError f l addr))
      else
        e ← sys_PtracePokeData addr int3;
        match e with
        | Some e => ret (None, Some (SyscallError e))
        | None =>
          let breakpoint :=
            {| FunctionName := Name fn; File := f; Line := l;
               Addr := addr; OriginalData := originalData |} in
          modify (fun s => set_BreakPoints (<[addr := breakpoint]> (BreakPoints s)) s);;
          ret (Some breakpoint, None)
        end
    end
  end.

Definition Clear (pc : Z) : Go (option BreakPoint * option error) :=
  bps ← gets BreakPoints;
  match bps !! pc with
  | None => ret (None, Some (Errorf_uint "No breakpoint currently set for %#v" pc))
  | Some bp =>
    e ← sys_PtracePokeData (Addr bp) (OriginalData bp);
    match e with
    | Some e => ret (None, Some (SyscallError e))
    | None =>
      modify (fun s => set_BreakPoints (delete pc (BreakPoints s)) s);;
      ret (Some bp, None)
    end
  end.

(** *** The stepping engine *)

Definition handleResult (err : option Z) : Go (option error) :=
  match err with
  | Some e => ret (Some (SyscallError e))
  | None =>
    '(ps, err) ← wait;
    let status_changed : Go (option error) :=
      match ps with
      | Some ps =>
        modify (set_ProcessState (Some ps));;
        if decide (TrapCause ps = -1 ∧ Exited ps = false) then
          err ← Registers;
          match err with
          | Some e => ret (Some e)
          | None =>
            regs ← gets Regs;
            modify (print (StopSignal ps, PC regs));;
            ret None
          end
        else ret None
      | None => ret None
      end in
    match err with
    | Some e => if is_ECHILD e then status_changed else ret (Some e)
    | None => status_changed
    end
  end.

(** [Step] has a named result [err]; the deferred closure, once armed,
    runs after the body has set [err] and assigns [err] again. *)
Definition Step : Go (option error) :=
  err ← Registers;
  match err with
  | Some e => ret (Some e)
  | None =>
    regs ← gets Regs;
    bps ← gets BreakPoints;
    match bps !! u64 (PC regs - 1) with
    | Some bp =>
      '(_, err) ← Clear (Addr bp);
      match err with
      | Some e => ret (Some e)
      | None =>
        modify (fun s => set_Regs (SetPC (Regs s) (Addr bp)) s);;
        regs ← gets Regs;
        e ← sys_PtraceSetRegs regs;
        match e with
        | Some e => ret (Some (SyscallError e))
        | None =>
          e ← sys_PtraceSingleStep;
          err ← handleResult e;
          let err : option error :=
            match err with
            | Some e => Some (Errorf_text "step failed: " e)
            | None => None
            end in
          '(_, err) ← Break (Addr bp);
          ret err
        end
      end
    | None =>
      e ← sys_PtraceSingleStep;
      err ← handleResult e;
      match err with
      | Some e => ret (Some (Errorf_text "step failed: " e))
      | None => ret None
      end
    end
  end.

Definition Continue : Go (option error) :=
  err ← Step;
  match err with
  | Some e => ret (Some e)
  | None => e ← sys_PtraceCont 0; handleResult e
  end.

Definition clearTempBreakpoint (pc : Z) : Go (option error) :=
  bps ← gets BreakPoints;
  match bps !! pc with
  | Some bp =>
    err ← Registers;
    match err with
    | Some e => ret (Some e)
    | None =>
      '(bp, err) ← Clear (Addr bp);
      match err with
      | Some e => ret (Some e)
      | None =>
        match bp with
        | None => panic nil_pointer_dereference
        | Some bp =>
          modify (fun s => set_Regs (SetPC (Regs s) (Addr bp)) s);;
          regs ← gets Regs;
          e ← sys_PtraceSetRegs regs;
          ret (SyscallError <$> e)
        end
      end
    end
  | None => ret None
  end.

(** The error of [PtracePeekText] is dropped: when the read fails the
    eight bytes of [data] are as [make] left them. *)
Definition ReturnAddressFromOffset (offset : Z) : Go Z :=
  err ← Registers;
  match err with
  | Some _ => panic "Could not obtain register values"
  | None =>
    regs ← gets Regs;
    let retaddr := i64 (i64 (Rsp regs) + offset) in
    r ← sys_PtracePeekText (u64 retaddr) 8;
    let data := match r with inl _ => replicate 8 0 | inr bs => bs end in
    ret (Uint64 data)
  end.

Definition is_BreakPointExistsError (e : error) : bool :=
  match e with BreakPointExistsError _ _ _ => true | _ => false end.

(** [for !fde.Cover(pc) { ... }]; [fuel] bounds the number of rounds. *)
Fixpoint continueToReturnAddress (fuel : nat) (pc : Z) (fde : FrameDescriptionEntry)
    : Go (option error) :=
  if Cover fde pc then ret None
  else
    match fuel with
    | O => fun _ => OutOfFuel
    | S fuel =>
      addr ← ReturnAddressFromOffset 0;
      '(bp, err) ← Break addr;
      let proceed : Go (option error) :=
        err ← Continue;
        match err with
        | Some e => ret (Some e)
        | None =>
          match bp with
          | None => panic nil_pointer_dereference
          | Some bp =>
            err ← clearTempBreakpoint (Addr bp);
            match err with
            | Some e => ret (Some e)
            | None =>
              '(pc, _) ← CurrentPC;
              continueToReturnAddress fuel pc fde
            end
          end
        end in
      match err with
      | Some e => if is_BreakPointExistsError e then proceed else ret (Some e)
      | None => proceed
      end
    end.

(** The closure [step] of [Next]. *)
Definition Next_step : Go (Z * option error) :=
  err ← Step;
  match err with
  | Some e => ret (0, Some (Errorf_text "next stepping failed: " e))
  | None => CurrentPC
  end.

(** The loop of [Next].  The result of [continueToReturnAddress] is
    dropped; the test that follows the call reads [err], which is the
    error [step()] returned. *)
Fixpoint Next_loop (fuel : nat) (fde : FrameDescriptionEntry) (l ret_addr : Z)
    : Go (option error) :=
  match fuel with
  | O => fun _ => OutOfFuel
  | S fuel' =>
    '(pc, err) ← Next_step;
    match err with
    | Some e => ret (Some e)
    | None =>
      let check_line (pc : Z) : Go (option error) :=
        let '(_, nl, _) := PCToLine img pc in
        if decide (nl ≠ l) then ret None else Next_loop fuel' fde l ret_addr in
      if negb (Cover fde pc) && negb (bool_decide (pc = ret_addr)) then
        _ ← continueToReturnAddress (S fuel') pc fde;
        match err with
        | Some (InvalidAddressError a) => ret (Some (InvalidAddressError a))
        | _ => '(pc, _) ← CurrentPC; check_line pc
        end
      else check_line pc
    end
  end.

Definition Next (fuel : nat) : Go (option error) :=
  '(pc, err) ← CurrentPC;
  match err with
  | Some e => ret (Some e)
  | None =>
    bps ← gets BreakPoints;
    let pc := match bps !! u64 (pc - 1) with Some _ => u64 (pc - 1) | None => pc end in
    let '(_, l, _) := PCToLine img pc in
    match FDEForPC img pc with
    | inl e => ret (Some e)
    | inr fde =>
      ret_addr ← ReturnAddressFromOffset (ReturnAddressOffset fde pc);
      Next_loop fuel fde l ret_addr
    end
  end.

(** *** The variable evaluator *)

(** [make([]byte, size)] panics beyond the allocation limit. *)
Definition readMemory (addr size : Z) : Go (list Z * option error) :=
  if decide (size > maxAlloc img) then panic makeslice_len_out_of_range
  else
    r ← sys_PtracePeekData addr (Z.to_nat size);
    match r with
    | inl e => ret ([], Some (SyscallError e))
    | inr buf => ret (buf, None)
    end.

Definition readString (addr : Z) : Go (string * option error) :=
  '(val, err) ← readMemory addr 8;
  match err with
  | None =>
    let addr := Uint64 val in
    '(val, err) ← readMemory addr 16;
    match err with
    | None =>
      let i := IndexByte val 0 in
      if decide (i < 0 ∨ i > Z.of_nat (length val)) then panic slice_bounds_out_of_range
      else
        let val := take (Z.to_nat i) val in
        ret (string_of_bytes val, None)
    | Some e => ret ("", Some e)
    end
  | Some e => ret ("", Some e)
  end.

Definition readIntSlice (addr : Z) : Go (string * option error) :=
  '(val, err) ← readMemory addr 24;
  match err with
  | None =>
    let a := Uint64 (take 8 val) in
    let l := Uint64 (take 8 (drop 8 val)) in
    let c := Uint64 (take 8 (drop 16 val)) in
    '(val, err) ← readMemory a (u64 (8 * l));
    match err with
    | None =>
      if decide (8 * l > maxAlloc img) then panic makeslice_cap_out_of_range
      else
        let members := read_uint64s val in
        let str := "len: " ++ fmt_d l ++ " cap: " ++ fmt_d c ++ " " ++ fmt_d_slice members in
        ret (str, err)
    | Some e => ret ("", Some e)
    end
  | Some e => ret ("", Some e)
  end.

Definition readIntArray (addr : Z) (ByteSize : Z) : Go (string * option error) :=
  if decide (ByteSize < 0 ∨ 8 * ByteSize > maxAlloc img) then panic makeslice_cap_out_of_range
  else
    '(val, err) ← readMemory addr (u64 ByteSize);
    match err with
    | None =>
      let members := read_uint64s val in
      let str := "[" ++ fmt_d (ByteSize `quot` 8) ++ "]int " ++ fmt_d_slice members in
      ret (str, None)
    | Some e => ret ("", Some e)
    end.

Definition readInt (addr : Z) : Go (string * option error) :=
  '(val, err) ← readMemory addr 8;
  match err with
  | None =>
    let n := Uint64 val in
    ret (fmt_d (i64 n), None)
  | Some e => ret ("", Some e)
  end.

Definition readFloat64 (addr : Z) : Go (string * option error) :=
  '(val, err) ← readMemory addr 8;
  match err with
  | None => ret (FormatFloat img val, None)
  | Some e => ret ("", Some e)
  end.

(** [extractValue(instructions, off, typ)]; the recursion follows the
    type.  A typedef is unwrapped once. *)
Fixpoint extractValue (typ : dwarfType) (instructions : list Z) (off : Z) {struct typ}
    : Go (string * option error) :=
  err ← Registers;
  match err with
  | Some e => ret ("", Some e)
  | None =>
    regs ← gets Regs;
    match FDEForPC img (PC regs) with
    | inl e => ret ("", Some e)
    | inr fde =>
      let cfaOffset := CFAOffset fde (PC regs) in
      let located (offset : Z) : Go (string * option error) :=
        let unwrapped := match typ with TypedefType _ underlying => underlying | _ => typ end in
        let offaddr := u64 offset in
        match unwrapped with
        | PtrType t =>
          '(addr, err) ← readMemory offaddr 8;
          match err with
          | None =>
            let adr := Uint64 addr in
            '(val, err) ← extractValue t [] (i64 adr);
            match err with
            | Some e => ret ("", Some e)
            | None => ret ("*" ++ val, None)
            end
          | Some e => ret ("", Some e)
          end
        | StructType StructName Field =>
          if decide (StructName = "string") then readString offaddr
          else if decide (StructName = "[]int") then readIntSlice offaddr
          else
            (fix range (Field : list StructField) (fields : list string)
                : Go (string * option error) :=
               match Field with
               | [] => ret (StructName ++ " {" ++ String.concat ", " fields ++ "}", None)
               | mkStructField name ByteOffset ftyp :: Field =>
                 '(val, err) ← extractValue ftyp [] (i64 (ByteOffset + offset));
                 match err with
                 | Some e => ret ("", Some e)
                 | None => range Field (fields ++ [name ++ ": " ++ val]%string)%list
                 end
               end) Field []
        | ArrayType ByteSize _ => readIntArray offaddr ByteSize
        | IntType _ => readInt offaddr
        | FloatType _ => readFloat64 offaddr
        | _ => ret ("", Some (Errorf_type "could not find value for type %s" unwrapped))
        end in
      if decide (off = 0) then
        match ExecuteStackProgram img cfaOffset instructions with
        | inl e => ret ("", Some e)
        | inr offset => located (i64 (i64 (Rsp regs) + offset))
        end
      else located off
    end
  end.

End Proctl.

(** ** Symbol evaluation

    [EvalSymbol] walks the debug-info entries in the order the reader
    yields them.  The reader, the type resolver and the printer of type
    names belong to the DWARF package, outside this one: they are
    parameters.  A step of the reader is an entry and the error that came
    with it; the walk ends when the reader yields no entry. *)

Inductive dwarfTag :=
| TagVariable
| TagFormalParameter
| TagOther (n : Z).

(** [dwarf.Entry]: the tag, and the three attributes [EvalSymbol] asks
    for, each present with the type asserted or not. *)
Record dwarfEntry := mkEntry {
  Tag : dwarfTag;
  AttrName : option string;
  AttrType : option Z;
  AttrLocation : option (list Z)
}.

Record DwarfData := mkDwarfData {
  Reader : list (dwarfEntry * option error);
  TypeAt : Z → error + dwarfType;
  TypeString : dwarfType → string
}.

(** The struct [Variable] of the package. *)
Record Variable' := mkVariable {
  VarName : string;
  VarValue : string;
  VarType : string
}.

(** The errors of [EvalSymbol]: one passed on, or the one it formats
    with the name. *)
Inductive symbol_error :=
| Raised (e : error)
| Errorf_name (format : string) (name : string).

Definition is_variable_tag (t : dwarfTag) : bool :=
  match t with
  | TagVariable | TagFormalParameter => true
  | TagOther _ => false
  end.

Section Symbols.

Context {W : Type} (K : Kernel W) (img : Image).

(** The loop of [EvalSymbol] over what the reader still has. *)
Fixpoint EvalSymbol_entries (data : DwarfData) (entries : list (dwarfEntry * option error))
    (name : string) : M (DebuggedProcess W) (option Variable' * option symbol_error) :=
  match entries with
  | [] => ret (None, Some (Errorf_name "could not find symbol value for %s" name))
  | (entry, err) :: entries =>
    match err with
    | Some e => ret (None, Some (Raised e))
    | None =>
      if negb (is_variable_tag (Tag entry)) then EvalSymbol_entries data entries name
      else
        match AttrName entry with
        | None => EvalSymbol_entries data entries name
        | Some n =>
          if negb (bool_decide (n = name)) then EvalSymbol_entries data entries name
          else
            match AttrType entry with
            | None => EvalSymbol_entries data entries name
            | Some offset =>
              match TypeAt data offset with
              | inl e => ret (None, Some (Raised e))
              | inr t =>
                match AttrLocation entry with
                | None => EvalSymbol_entries data entries name
                | Some instructions =>
                  '(val, err) ← extractValue K img t instructions 0;
                  match err with
                  | Some e => ret (None, Some (Raised e))
                  | None =>
                    ret (Some {| VarName := n; VarType := TypeString data t;
                                 VarValue := val |}, None)
                  end
                end
              end
            end
        end
    end
  end.

(** [dwarf] is what [dbp.Executable.DWARF()] returns. *)
Definition EvalSymbol (dwarf : error + DwarfData) (name : string)
    : M (DebuggedProcess W) (option Variable' * option symbol_error) :=
  match dwarf with
  | inl e => ret (None, Some (Raised e))
  | inr data => EvalSymbol_entries data (Reader data) name
  end.

End Symbols.

(** ** The command line ([main.go]) *)

(** [strings.Split(s, sep)] for a separator of one byte. *)
Fixpoint Split (s : string) (sep : Ascii.ascii) : list string :=
  match s with
  | EmptyString => [EmptyString]
  | String c rest =>
    if decide (c = sep) then EmptyString :: Split rest sep
    else
      match Split rest sep with
      | head :: tail => String c head :: tail
      | [] => [String c EmptyString]
      end
  end.

(** [parseCommand]: [vals[0], vals[1:]]; [None] stands for the panic of
    an index out of range. *)
Definition parseCommand (cmdstr : string) : option (string * list string) :=
  let vals := Split cmdstr Ascii.Space in
  match vals with
  | [] => None
  | first :: others => Some (first, others)
  end.

(** ** A scripted tracee

    A kernel to run the engine on.  The tracee has a byte memory (only
    mapped addresses can be read or written), two registers, and a script
    that says what each resume request (single-step or continue) leads to. *)

Inductive SimEvent :=
| StopAt (rip rsp : Z) (status : WaitStatus)
| ExitWith (status : WaitStatus)
| Refuse (errno : Z).

Record Sim := mkSim {
  sim_mem : gmap Z Z;
  sim_regs : PtraceRegs;
  sim_alive : bool;
  sim_pending : option WaitStatus;
  sim_script : list SimEvent
}.

Definition sim_getregs (w : Sim) : Z + PtraceRegs :=
  if sim_alive w then inr (sim_regs w) else inl ESRCH.

Definition sim_setregs (r : PtraceRegs) (w : Sim) : option Z * Sim :=
  if sim_alive w
  then (None, mkSim (sim_mem w) r true (sim_pending w) (sim_script w))
  else (Some ESRCH, w).

Definition sim_peek (a : Z) (w : Sim) : Z + Z :=
  if sim_alive w then
    match sim_mem w !! a with
    | Some b => inr b
    | None => inl EIO
    end
  else inl ESRCH.

Fixpoint sim_write (a : Z) (data : list Z) (m : gmap Z Z) : option (gmap Z Z) :=
  match data with
  | [] => Some m
  | b :: rest =>
    match m !! a with
    | Some _ => sim_write (u64 (a + 1)) rest (<[a := b]> m)
    | None => None
    end
  end.

Definition sim_poke (a : Z) (data : list Z) (w : Sim) : option Z * Sim :=
  if sim_alive w then
    match sim_write a data (sim_mem w) with
    | Some m => (None, mkSim m (sim_regs w) true (sim_pending w) (sim_script w))
    | None => (Some EIO, w)
    end
  else (Some ESRCH, w).

Definition sim_resume (w : Sim) : option Z * Sim :=
  if sim_alive w then
    match sim_script w with
    | StopAt rip rsp status :: rest =>
      (None, mkSim (sim_mem w) (mkRegs rip rsp) true (Some status) rest)
    | ExitWith status :: rest =>
      (None, mkSim (sim_mem w) (sim_regs w) false (Some status) rest)
    | Refuse e :: rest =>
      (Some e, mkSim (sim_mem w) (sim_regs w) true (sim_pending w) rest)
    | [] =>
      (None, mkSim (sim_mem w) (sim_regs w) false (Some 0) [])
    end
  else (Some ESRCH, w).

Definition sim_wait (w : Sim) : (Z + WaitStatus) * Sim :=
  match sim_pending w with
  | Some status =>
    (inr status, mkSim (sim_mem w) (sim_regs w) (sim_alive w) None (sim_script w))
  | None => (inl ECHILD, w)
  end.

Definition SimKernel : Kernel Sim :=
  {| PtraceGetRegs := sim_getregs;
     PtraceSetRegs := sim_setregs;
     peek_byte := sim_peek;
     PtracePokeData := sim_poke;
     PtraceSingleStep := sim_resume;
     PtraceCont := fun _ => sim_resume;
     Wait4 := sim_wait |}.

(** Memory contents from a list of (address, bytes) segments. *)
Fixpoint store_bytes (a : Z) (bs : list Z) (m : gmap Z Z) : gmap Z Z :=
  match bs with
  | [] => m
  | b :: rest => <[a := b]> (store_bytes (a + 1) rest m)
  end.

(** [n] as eight little-endian bytes. *)
Fixpoint le_encode (k : nat) (n : Z) : list Z :=
  match k with
  | O => []
  | S k => n mod 256 :: le_encode k (n / 256)
  end.

Definition attach (w : Sim) : DebuggedProcess Sim :=
  mkDbp (mkRegs 0 0) None ∅ w [] [].

Definition SIGTRAP_stop : WaitStatus := 0x057F.

(** ** Kernel laws *)

(** Memory read-back: a byte that was written is the byte that is read. *)
Definition poke_then_peek {W} (K : Kernel W) : Prop :=
  ∀ a b w w', PtracePokeData K a [b] w = (None, w') → peek_byte K a w' = inr b.

(** Bytes are bytes. *)
Definition is_byte (b : Z) : Prop := 0 ≤ b < 256.

#[global] Instance is_byte_dec (b : Z) : Decision (is_byte b).
Proof. unfold is_byte. apply _. Defined.

(** A table as [Break] builds it: every record is filed under its own
    address. *)
Definition table_wf (t : gmap Z BreakPoint) : Prop :=
  ∀ k bp, t !! k = Some bp → Addr bp = k.

(** ** States and renderings the facts speak of *)

(** Requests that only wait or read registers. *)
Definition passive (q : KReq) : Prop := q = KWait ∨ q = KGetRegs.

(** What [readIntSlice] renders. *)
Definition rendered_slice (l c : Z) (members : list Z) : string :=
  ("len: " ++ fmt_d l ++ " cap: " ++ fmt_d c ++ " " ++ fmt_d_slice members)%string.

(** Errors made by [fmt.Errorf]. *)
Definition formatted (e : error) : Prop :=
  match e with
  | Errorf_uint _ _ | Errorf_err _ _ | Errorf_text _ _ | Errorf_type _ _ => True
  | _ => False
  end.

Section Descriptions.

Context {W : Type} (K : Kernel W) (img : Image).
Implicit Types s : DebuggedProcess W.

(** The state a successful [Break] leaves. *)
Definition installed (addr : Z) (bp : BreakPoint) (w' : W) s : DebuggedProcess W :=
  mkDbp (Regs s) (ProcessState s) (<[addr := bp]> (BreakPoints s)) w'
        (stdout s) (ktrace s ++ [KPeekData addr 1; KPokeData addr int3]).

(** The state a successful [Clear] leaves. *)
Definition removed (pc : Z) (bp : BreakPoint) (w' : W) s : DebuggedProcess W :=
  mkDbp (Regs s) (ProcessState s) (delete pc (BreakPoints s)) w'
        (stdout s) (ktrace s ++ [KPokeData (Addr bp) (OriginalData bp)]).

(** The state of a [Step] that has cleared the trap it is parked on
    and rewound the PC, before the single-step request. *)
Definition rewound s (r : PtraceRegs) (bp : BreakPoint) (w2 : W) : DebuggedProcess W :=
  mkDbp (SetPC r (Addr bp)) (ProcessState s) (delete (Addr bp) (BreakPoints s)) w2
        (stdout s)
        (ktrace s ++ [KGetRegs; KPokeData (Addr bp) (OriginalData bp);
                      KSetRegs (SetPC r (Addr bp))]).

(** The rest of such a [Step]: the single-step, then the deferred
    [Break], whose error is the one [Step] returns. *)
Definition resume_and_restore (addr : Z) : M (DebuggedProcess W) (option error) :=
  e ← sys_PtraceSingleStep K;
  _ ← handleResult K e;
  '(_, err) ← Break K img addr;
  ret err.

End Descriptions.

(** ** Invariants of the breakpoint table *)

(** Writing one byte leaves every other byte as it was. *)
Definition poke_elsewhere {W} (K : Kernel W) : Prop :=
  ∀ a b w w' a',
    PtracePokeData K a [b] w = (None, w') → a' ≠ a → peek_byte K a' w' = peek_byte K a' w.

(** A write the kernel refuses changes no byte. *)
Definition poke_refused {W} (K : Kernel W) : Prop :=
  ∀ a d w e w' a',
    PtracePokeData K a d w = (Some e, w') → peek_byte K a' w' = peek_byte K a' w.

(** A memory that behaves: what is written is read back, nothing else
    changes, and a refused write changes nothing. *)
Definition faithful_memory {W} (K : Kernel W) : Prop :=
  poke_then_peek K ∧ poke_elsewhere K ∧ poke_refused K.

(** A record as [Break] makes it for the address it is filed under: the
    oracle's function, file and line for that address, and one displaced
    byte that is not the trap. *)
Definition Break_record (img : Image) (k : Z) (bp : BreakPoint) : Prop :=
  ∃ f l fn b,
    PCToLine img k = (f, l, Some fn) ∧
    bp = mkBreakPoint (Name fn) f l k [b] ∧
    b ≠ 0xCC.

(** Every record of the table has its trap in the tracee's memory. *)
Definition traps_in_place {W} (K : Kernel W) (s : DebuggedProcess W) : Prop :=
  ∀ k bp, BreakPoints s !! k = Some bp → peek_byte K k (tracee s) = inr 0xCC.

(** An operation keeps a property of the table: whenever it returns, the
    table it leaves has the property the table it found had. *)
Definition keeps {W A} (P : gmap Z BreakPoint → Prop)
    (m : M (DebuggedProcess W) A) : Prop :=
  ∀ s a s', P (BreakPoints s) → m s = Done a s' → P (BreakPoints s').

(** An entry [EvalSymbol] walks past: no error came with it, and it is
    not a variable or parameter of that name with a type attribute, or it
    is one whose type resolves and that has no location. *)
Definition passed_over (data : DwarfData) (name : string)
    (step : dwarfEntry * option error) : Prop :=
  step.2 = None ∧
  (is_variable_tag (Tag step.1) = false ∨
   AttrName step.1 ≠ Some name ∨
   AttrType step.1 = None ∨
   ∃ offset t, AttrType step.1 = Some offset ∧ TypeAt data offset = inr t ∧
               AttrLocation step.1 = None).

(** How often the byte [c] occurs in [s]. *)
Fixpoint count_byte (c : Ascii.ascii) (s : string) : nat :=
  match s with
  | EmptyString => 0
  | String c' rest => (if decide (c' = c) then 1 else 0) + count_byte c rest
  end.

Definition field_name (f : StructField) : string :=
  match f with mkStructField n _ _ => n end.

(** The decimal rendering of the signed 64-bit integer at [addr], when
    the eight bytes can be read. *)
Definition int_at {W} (K : Kernel W) (w : W) (addr : Z) : option string :=
  match peek_bytes K addr 8 w with
  | inr bs => Some (fmt_d (i64 (Uint64 bs)))
  | inl _ => None
  end.

(** A field of integer type, at a non-zero address, whose value renders
    as [v]. *)
Definition int_field {W} (K : Kernel W) (w : W) (offset : Z) (f : StructField)
    (v : string) : Prop :=
  ∃ name ByteOffset tname,
    f = mkStructField name ByteOffset (IntType tname) ∧
    i64 (ByteOffset + offset) ≠ 0 ∧
    int_at K w (u64 (i64 (ByteOffset + offset))) = Some v.

(** ** A fixture: one caller, one callee

    [main.main] occupies [0x1000, 0x1100), sixteen bytes to a source line
    from line 10 on; [main.f] occupies [0x3000, 0x3100), all of it line
    50.  The stack lives at [0x7000, 0x7100). *)
Module Fixture.

Definition in_main (pc : Z) : bool := bool_decide (0x1000 ≤ pc < 0x1100).
Definition in_f (pc : Z) : bool := bool_decide (0x3000 ≤ pc < 0x3100).

Definition fde_main : FrameDescriptionEntry :=
  {| Cover := in_main; ReturnAddressOffset := fun _ => 8; CFAOffset := fun _ => 16 |}.
Definition fde_f : FrameDescriptionEntry :=
  {| Cover := in_f; ReturnAddressOffset := fun _ => 0; CFAOffset := fun _ => 8 |}.

Definition img : Image :=
  {| PCToLine := fun pc =>
       if in_main pc then ("main.go", 10 + (pc - 0x1000) / 16, Some (mkFunc "main.main" 0x1000))
       else if in_f pc then ("main.go", 50, Some (mkFunc "main.f" 0x3000))
       else ("", 0, None);
     FDEForPC := fun pc =>
       if in_main pc then inr fde_main
       else if in_f pc then inr fde_f
       else inl (OracleError "no frame description entry");
     ExecuteStackProgram := fun cfa _ => inr (cfa - 16);
     FormatFloat := fun _ => "";
     maxAlloc := 2 ^ 48 |}.

(** Code bytes: [nop] everywhere. *)
Definition text : gmap Z Z :=
  store_bytes 0x1000 (replicate 32 0x90) (store_bytes 0x3000 (replicate 16 0x90) ∅).

(** A stopped tracee; [stack] is what memory holds from [0x6FF0] on. *)
Definition stopped_at (rip rsp : Z) (stack : list Z) (script : list SimEvent) : Sim :=
  mkSim (store_bytes 0x6FF0 stack text) (mkRegs rip rsp) true None script.

Definition word (n : Z) : list Z := le_encode 8 n.

(** The record [Break] makes for an address of [main.main] that held a
    [nop]. *)
Definition bp_main (addr : Z) : BreakPoint :=
  {| FunctionName := "main.main"; File := "main.go";
     Line := 10 + (addr - 0x1000) / 16; Addr := addr; OriginalData := [0x90] |}.

(** The tracee with a trap written at [addr], and the debugger that
    knows of it. *)
Definition with_trap (addr : Z) (w : Sim) : Sim :=
  mkSim (<[addr := 0xCC]> (sim_mem w)) (sim_regs w) (sim_alive w)
        (sim_pending w) (sim_script w).

Definition with_breakpoint (addr : Z) (s : DebuggedProcess Sim) : DebuggedProcess Sim :=
  mkDbp (Regs s) (ProcessState s) (<[addr := bp_main addr]> (BreakPoints s))
        (with_trap addr (tracee s)) (stdout s) (ktrace s).

(** Stopped at the first instruction of [main.main]; the return
    address of [main.main] is at [rsp + 8]. *)
Definition main_frame : list Z := word 0 ++ word 0 ++ word 0 ++ word 0x1F00.

Definition at_main (script : list SimEvent) : DebuggedProcess Sim :=
  attach (stopped_at 0x1000 0x7000 main_frame script).

(** Just past the trap at [0x1010], whose instruction jumps back to
    [0x1000]. *)
Definition past_trap (script : list SimEvent) : DebuggedProcess Sim :=
  with_breakpoint 0x1010 (attach (stopped_at 0x1011 0x7000 main_frame script)).

(** [main.main] is about to enter [main.f]; [slot] is what the tracee
    will find at the top of the stack on entry. *)
Definition calling (slot : Z) (after : list SimEvent) : DebuggedProcess Sim :=
  attach (stopped_at 0x1000 0x7000
            (word 0 ++ word slot ++ word 0 ++ word 0x1F00)
            (StopAt 0x3000 0x6FF8 SIGTRAP_stop :: after)).

(** A [[]int] of five elements and a [string] of sixteen letters, at the
    top of the stack. *)
Definition slice_frame : list Z :=
  word 0 ++ word 0
  ++ word 0x7020 ++ word 5 ++ word 5 ++ word 0
  ++ word 1 ++ word 2 ++ word 3 ++ word 4 ++ word 5.

Definition string_frame : list Z :=
  word 0 ++ word 0 ++ word 0x7010 ++ word 16 ++ replicate 16 0x61.

(** What is looked at in an outcome: the result, the addresses in the
    table, the registers of the tracee and the requests sent. *)
Definition summary {A} (o : Outcome (DebuggedProcess Sim) A)
    : option (A * list Z * PtraceRegs * list KReq) :=
  match o with
  | Done a s =>
    Some (a, (map_to_list (BreakPoints s)).*1, sim_regs (tracee s), ktrace s)
  | _ => None
  end.

(** The state an operation leaves ([s] itself when it does not return). *)
Definition state_after {A} (o : Outcome (DebuggedProcess Sim) A)
    (s : DebuggedProcess Sim) : DebuggedProcess Sim :=
  match o with
  | Done _ s' => s'
  | _ => s
  end.

Definition result {A} (o : Outcome (DebuggedProcess Sim) A) : option A :=
  match o with
  | Done a _ => Some a
  | _ => None
  end.

Definition run {A} (m : M (DebuggedProcess Sim) A) (s : DebuggedProcess Sim)
    : DebuggedProcess Sim :=
  state_after (m s) s.

(** The state in which [Next] enters its loop: it has read the PC and
    the return address of the current activation. *)
Definition loop_entry (s : DebuggedProcess Sim) : DebuggedProcess Sim :=
  run (ReturnAddressFromOffset SimKernel 8) (run (CurrentPC SimKernel) s).

(** Scenarios. *)

(** Stopped at [0x1000], no breakpoint anywhere. *)
Definition fresh : DebuggedProcess Sim := at_main [].

(** A breakpoint is already installed at [0x1010]. *)
Definition trapped : DebuggedProcess Sim := with_breakpoint 0x1010 fresh.

(** [fresh] after a successful [Break(0x1010)]. *)
Definition broken : DebuggedProcess Sim :=
  installed 0x1010 (bp_main 0x1010) (with_trap 0x1010 (tracee fresh)) fresh.

(** The tracee of [broken] once [0x90] is written back at [0x1010]. *)
Definition restored : Sim := (sim_poke 0x1010 [0x90] (tracee broken)).2.

(** The tracee of [past_trap] as a [Step] over the trap moves it on. *)
Definition trap_lifted (s : DebuggedProcess Sim) : Sim :=
  (sim_poke 0x1010 [0x90] (tracee s)).2.
Definition pc_rewound (s : DebuggedProcess Sim) : Sim :=
  (sim_setregs (mkRegs 0x1010 0x7000) (trap_lifted s)).2.
Definition resumed (s : DebuggedProcess Sim) : Sim := (sim_resume (pc_rewound s)).2.
Definition trap_again (s : DebuggedProcess Sim) : Sim :=
  (sim_poke 0x1010 [0xCC] (resumed s)).2.

(** The trap at [0x1010] sits on a jump back to [0x1000]. *)
Definition loop_back : DebuggedProcess Sim :=
  past_trap [StopAt 0x1000 0x7000 SIGTRAP_stop].

(** The kernel refuses the single-step over the trap at [0x1010]. *)
Definition step_refused : DebuggedProcess Sim := past_trap [Refuse EIO].

(** One instruction, then on to the next stop. *)
Definition two_stops : DebuggedProcess Sim :=
  at_main [StopAt 0x1001 0x7000 SIGTRAP_stop; StopAt 0x1011 0x7000 SIGTRAP_stop].

(** [main.main] ends in a jump to [main.f], its frame released: on
    entry to [main.f] the top of the stack holds the return address of
    [main.main], [0x1F00], in code the symbol table does not cover. *)
Definition tail_jump : DebuggedProcess Sim :=
  at_main [StopAt 0x3000 0x7008 SIGTRAP_stop].

(** [main.f] is called from [0x1000] and returns to [0x1005], where the
    user has a breakpoint. *)
Definition return_to_user_breakpoint : DebuggedProcess Sim :=
  with_breakpoint 0x1005
    (calling 0x1005 [StopAt 0x3001 0x6FF8 SIGTRAP_stop;
                     StopAt 0x1006 0x7000 SIGTRAP_stop]).

(** [main.f] is called from [0x1000] and exits the program. *)
Definition callee_exits : DebuggedProcess Sim :=
  calling 0x1005 [StopAt 0x3001 0x6FF8 SIGTRAP_stop; ExitWith 0].

(** [main.f] is called from [0x1000] and returns; the next line starts
    at [0x1010]. *)
Definition callee_returns : DebuggedProcess Sim :=
  calling 0x1005 [StopAt 0x3001 0x6FF8 SIGTRAP_stop;
                  StopAt 0x1006 0x7000 SIGTRAP_stop;
                  StopAt 0x1010 0x7000 SIGTRAP_stop].

Definition slice_header : list Z := word 0x7020 ++ word 5 ++ word 5.
Definition slice_data : list Z := word 1 ++ word 2 ++ word 3 ++ word 4 ++ word 5.

Definition with_slice : DebuggedProcess Sim :=
  attach (stopped_at 0x1000 0x7000 slice_frame []).

Definition with_string : DebuggedProcess Sim :=
  attach (stopped_at 0x1000 0x7000 string_frame []).

(** More scenarios. *)

(** The tracee is gone. *)
Definition gone : DebuggedProcess Sim :=
  attach (mkSim text (mkRegs 0x1000 0x7000) false None []).

(** Stopped at [0x5000], in code with neither symbols nor frame entry. *)
Definition nowhere : DebuggedProcess Sim :=
  attach (stopped_at 0x5000 0x7000 main_frame []).

(** Just past a breakpoint the table files under [0x1050], an address
    the tracee has no memory at. *)
Definition unmapped_trap : DebuggedProcess Sim :=
  mkDbp (mkRegs 0 0) None {[0x1050 := bp_main 0x1050]}
        (stopped_at 0x1051 0x7000 main_frame []) [] [].

(** A request was accepted and the wait will report [status]. *)
Definition waiting (status : WaitStatus) : DebuggedProcess Sim :=
  attach (mkSim (store_bytes 0x6FF0 main_frame text) (mkRegs 0x1000 0x7000) true
            (Some status) []).

Definition SIGSEGV_stop : WaitStatus := 0x0B7F.

(** A kernel that reads and writes memory but refuses to set registers
    and fails every wait with EIO. *)
Definition deaf_kernel : Kernel unit :=
  {| PtraceGetRegs := fun _ => inr (mkRegs 0x1011 0x7000);
     PtraceSetRegs := fun _ w => (Some EIO, w);
     peek_byte := fun _ _ => inr 0x90;
     PtracePokeData := fun _ _ w => (None, w);
     PtraceSingleStep := fun w => (None, w);
     PtraceCont := fun _ w => (None, w);
     Wait4 := fun w => (inl EIO, w) |}.

Definition deaf_past_trap : DebuggedProcess unit :=
  mkDbp (mkRegs 0 0) None {[0x1010 := bp_main 0x1010]} tt [] [].

(** The image with a location evaluator that fails on the empty
    expression, and one that always fails. *)
Definition img_strict : Image :=
  {| PCToLine := PCToLine img;
     FDEForPC := FDEForPC img;
     ExecuteStackProgram := fun cfa instructions =>
       match instructions with
       | [] => inl (OracleError "empty location expression")
       | _ => inr (cfa - 16)
       end;
     FormatFloat := FormatFloat img;
     maxAlloc := maxAlloc img |}.

Definition img_no_location : Image :=
  {| PCToLine := PCToLine img;
     FDEForPC := FDEForPC img;
     ExecuteStackProgram := fun _ _ => inl (OracleError "bad location expression");
     FormatFloat := FormatFloat img;
     maxAlloc := maxAlloc img |}.

(** The string "foo" and the rest of its sixteen-byte window. *)
Definition short_string_frame : list Z :=
  word 0 ++ word 0 ++ word 0x7010 ++ word 3 ++ [0x66; 0x6F; 0x6F] ++ replicate 13 0.

Definition with_short_string : DebuggedProcess Sim :=
  attach (stopped_at 0x1000 0x7000 short_string_frame []).

(** A pointer at the top of the stack to the integer -2 at [0x7010], and
    a nil pointer there. *)
Definition pointer_frame : list Z :=
  word 0 ++ word 0 ++ word 0x7010 ++ word 0 ++ word (2 ^ 64 - 2).

Definition with_pointer : DebuggedProcess Sim :=
  attach (stopped_at 0x1000 0x7000 pointer_frame []).

Definition with_nil_pointer : DebuggedProcess Sim :=
  attach (stopped_at 0x1000 0x7000 (word 0 ++ word 0 ++ word 0 ++ word 7) []).

(** Debug information: a compile unit, a variable [a5] that was
    optimised away (no location), the variable [a5] of type [[]int], a
    parameter [a5] of an unsupported type further on, and an entry the
    reader fails on. *)
Definition slice_type : dwarfType := StructType "[]int" [].

Definition debug_info : DwarfData :=
  {| Reader :=
       [(mkEntry (TagOther 0x11) (Some "main.go") None None, None);
        (mkEntry TagVariable (Some "a5") (Some 1) None, None);
        (mkEntry TagVariable (Some "a5") (Some 1) (Some [0x91]), None);
        (mkEntry TagFormalParameter (Some "a5") (Some 2) (Some [0x91]), None);
        (mkEntry TagVariable (Some "broken") None None, Some (OracleError "decoding entry"))];
     TypeAt := fun offset =>
       if decide (offset = 1) then inr slice_type
       else if decide (offset = 2) then inr (OtherType "bool")
       else inl (OracleError "no such type");
     TypeString := fun t =>
       match t with
       | StructType n _ => "struct " ++ n
       | OtherType n => n
       | _ => "?"
       end |}.

(** The same with the reader stopping after the variable that was
    optimised away. *)
Definition stripped_info : DwarfData :=
  {| Reader := take 2 (Reader debug_info);
     TypeAt := TypeAt debug_info;
     TypeString := TypeString debug_info |}.

End Fixture.

(** * Facts *)

Local Open Scope list_scope.
Local Open Scope Z_scope.

Arguments handleResult : simpl never.
Arguments Break : simpl never.
Arguments Clear : simpl never.
Arguments Step : simpl never.
Arguments Continue : simpl never.
Arguments clearTempBreakpoint : simpl never.
Arguments ReturnAddressFromOffset : simpl never.
Arguments readMemory : simpl never.

Ltac go_unfold :=
  unfold CurrentPC, Registers, sys_PtraceGetRegs, sys_PtraceSetRegs,
    sys_PtracePeekData, sys_PtracePeekText, sys_PtracePokeData,
    sys_PtraceSingleStep, sys_PtraceCont, wait, ret, gets, modify, panic,
    mbind, M_bind, mret, M_ret.

Ltac go_simpl := go_unfold; cbn [fmap option_fmap option_map].

Section BreakpointTable.

Context {W : Type} (K : Kernel W) (img : Image).
Implicit Types s : DebuggedProcess W.

Lemma Break_invalid addr s f l :
  PCToLine img addr = (f, l, None) →
  Break K img addr s = Done (None, Some (InvalidAddressError addr)) s.
Proof. intros H. unfold Break. rewrite H. reflexivity. Qed.

Lemma Break_exists addr s f l fn :
  PCToLine img addr = (f, l, Some fn) →
  peek_byte K addr (tracee s) = inr 0xCC →
  Break K img addr s
  = Done (None, Some (BreakPointExistsError f l addr)) (record (KPeekData addr 1) s).
Proof.
  intros H Hp. unfold Break. rewrite H. go_simpl. cbn.
  rewrite Hp. reflexivity.
Qed.

Lemma Break_installs addr s f l fn b w' :
  PCToLine img addr = (f, l, Some fn) →
  peek_byte K addr (tracee s) = inr b →
  b ≠ 0xCC →
  PtracePokeData K addr int3 (tracee s) = (None, w') →
  Break K img addr s
  = Done (Some (mkBreakPoint (Name fn) f l addr [b]), None)
         (installed addr (mkBreakPoint (Name fn) f l addr [b]) w' s).
Proof.
  intros H Hp Hb Hw. unfold Break. rewrite H. go_simpl. cbn.
  rewrite Hp. destruct (decide ([b] = int3)) as [E|_].
  { inversion E. contradiction. }
  cbn. rewrite Hw. cbn. unfold installed, set_BreakPoints, record, set_tracee. cbn.
  rewrite <- app_assoc. reflexivity.
Qed.

(** Every way [Break] can end. *)
Lemma Break_cases addr s r s' :
  Break K img addr s = Done r s' →
  (∃ f l, PCToLine img addr = (f, l, None) ∧
      r = (None, Some (InvalidAddressError addr)) ∧ s' = s) ∨
  (∃ f l fn, PCToLine img addr = (f, l, Some fn) ∧
    ((∃ e, peek_byte K addr (tracee s) = inl e ∧
        r = (None, Some (SyscallError e)) ∧ s' = record (KPeekData addr 1) s) ∨
     (peek_byte K addr (tracee s) = inr 0xCC ∧
        r = (None, Some (BreakPointExistsError f l addr)) ∧
        s' = record (KPeekData addr 1) s) ∨
     (∃ b, peek_byte K addr (tracee s) = inr b ∧ b ≠ 0xCC ∧
        ((∃ e w', PtracePokeData K addr int3 (tracee s) = (Some e, w') ∧
            r = (None, Some (SyscallError e)) ∧
            BreakPoints s' = BreakPoints s ∧ tracee s' = w') ∨
         (∃ w', PtracePokeData K addr int3 (tracee s) = (None, w') ∧
            r = (Some (mkBreakPoint (Name fn) f l addr [b]), None) ∧
            s' = installed addr (mkBreakPoint (Name fn) f l addr [b]) w' s))))).
Proof.
  intros HB.
  destruct (PCToLine img addr) as [[f l] [fn|]] eqn:HL.
  2:{ left. exists f, l. rewrite (Break_invalid _ _ _ _ HL) in HB.
      inversion HB. auto. }
  right. exists f, l, fn. split; [reflexivity|].
  destruct (peek_byte K addr (tracee s)) as [e|b] eqn:Hp.
  { left. exists e. split; [reflexivity|].
    unfold Break in HB. rewrite HL in HB. revert HB. go_simpl. cbn.
    rewrite Hp. intros HB. inversion HB. auto. }
  right. destruct (decide (b = 0xCC)) as [->|Hne].
  { left. rewrite (Break_exists _ _ _ _ _ HL Hp) in HB. inversion HB. auto. }
  right. exists b. split; [reflexivity|]. split; [assumption|].
  destruct (PtracePokeData K addr int3 (tracee s)) as [[e|] w'] eqn:Hw.
  { left. exists e, w'. split; [reflexivity|].
    unfold Break in HB. rewrite HL in HB. revert HB. go_simpl. cbn.
    rewrite Hp. destruct (decide ([b] = int3)) as [E|_].
    { inversion E. contradiction. }
    cbn. rewrite Hw. cbn. intros HB. inversion HB. auto. }
  right. exists w'. split; [reflexivity|].
  rewrite (Break_installs _ _ _ _ _ _ _ HL Hp Hne Hw) in HB.
  inversion HB. auto.
Qed.

Lemma Break_total addr s : ∃ r s', Break K img addr s = Done r s'.
Proof.
  unfold Break. destruct (PCToLine img addr) as [[f l] [fn|]]; [|eauto].
  go_simpl. cbn. destruct (peek_byte K addr (tracee s)); [eauto|].
  destruct (decide _); [eauto|]. cbn.
  destruct (PtracePokeData K addr int3 (tracee s)) as [[e|] w']; cbn; eauto.
Qed.

Lemma Clear_missing pc s :
  BreakPoints s !! pc = None →
  Clear K pc s
  = Done (None, Some (Errorf_uint "No breakpoint currently set for %#v" pc)) s.
Proof. intros H. unfold Clear. go_simpl. rewrite H. reflexivity. Qed.

Lemma Clear_removes pc s bp w' :
  BreakPoints s !! pc = Some bp →
  PtracePokeData K (Addr bp) (OriginalData bp) (tracee s) = (None, w') →
  Clear K pc s = Done (Some bp, None) (removed pc bp w' s).
Proof.
  intros H Hw. unfold Clear. go_simpl. rewrite H. cbn. rewrite Hw. reflexivity.
Qed.

Lemma Clear_refused pc s bp e w' :
  BreakPoints s !! pc = Some bp →
  PtracePokeData K (Addr bp) (OriginalData bp) (tracee s) = (Some e, w') →
  Clear K pc s
  = Done (None, Some (SyscallError e))
         (set_tracee w' (record (KPokeData (Addr bp) (OriginalData bp)) s)).
Proof.
  intros H Hw. unfold Clear. go_simpl. rewrite H. cbn. rewrite Hw. reflexivity.
Qed.

(** C3. [Break(addr)] fails with [InvalidAddressError] when no function
    covers [addr]; fails with [BreakPointExistsError] when a function
    covers it and the byte the kernel reads at [addr] is already 0xCC;
    and when the byte is another one and the kernel takes the write, it
    keeps that byte, writes 0xCC at [addr], files the record under
    [addr] and returns it.  After that, on a kernel that reads back what
    was written, a second [Break(addr)] fails with
    [BreakPointExistsError]. *)
Theorem Break_spec addr s f l fn :
  PCToLine img addr = (f, l, fn) →
  (fn = None →
     Break K img addr s = Done (None, Some (InvalidAddressError addr)) s) ∧
  (is_Some fn → peek_byte K addr (tracee s) = inr 0xCC →
     Break K img addr s
     = Done (None, Some (BreakPointExistsError f l addr)) (record (KPeekData addr 1) s)) ∧
  (∀ fn' b w',
     fn = Some fn' → peek_byte K addr (tracee s) = inr b → b ≠ 0xCC →
     PtracePokeData K addr [0xCC] (tracee s) = (None, w') →
     let bp := mkBreakPoint (Name fn') f l addr [b] in
     let s1 := installed addr bp w' s in
     Break K img addr s = Done (Some bp, None) s1 ∧
     BreakPoints s1 !! addr = Some bp ∧
     tracee s1 = w' ∧
     (poke_then_peek K →
        Break K img addr s1
        = Done (None, Some (BreakPointExistsError f l addr))
               (record (KPeekData addr 1) s1))).
Proof.
  intros HL. split; [|split].
  - intros ->. eapply Break_invalid; eassumption.
  - intros [fn' ->] Hp. eapply Break_exists; eassumption.
  - intros fn' b w' -> Hp Hb Hw bp s1. split; [|split; [|split]].
    + eapply Break_installs; eassumption.
    + unfold s1, installed. cbn. apply lookup_insert_eq.
    + reflexivity.
    + intros Hlaw. eapply Break_exists; [eassumption|].
      unfold s1, installed. cbn. eapply Hlaw. eassumption.
Qed.

(** C4. When [Break(a)] has succeeded and the kernel takes the write,
    the [Clear(a)] that follows writes back the byte [Break] displaced
    (the one that was at [a] before the [Break]; on a kernel that reads
    back what was written it is at [a] again), removes the entry from
    the table, which is then the table from before the [Break] without
    [a], and returns the record [Break] returned.  [Clear(pc)] with no
    record for [pc] fails with "No breakpoint currently set" and leaves
    the state as it is. *)
Theorem Break_Clear_roundtrip :
  (∀ a s bp s1 w2,
     Break K img a s = Done (Some bp, None) s1 →
     PtracePokeData K a (OriginalData bp) (tracee s1) = (None, w2) →
     ∃ b,
       peek_byte K a (tracee s) = inr b ∧
       OriginalData bp = [b] ∧
       Clear K a s1
       = Done (Some bp, None)
              (mkDbp (Regs s1) (ProcessState s1) (delete a (BreakPoints s)) w2
                     (stdout s1) (ktrace s1 ++ [KPokeData a [b]])) ∧
       (poke_then_peek K → peek_byte K a w2 = inr b)) ∧
  (∀ pc s,
     BreakPoints s !! pc = None →
     Clear K pc s
     = Done (None, Some (Errorf_uint "No breakpoint currently set for %#v" pc)) s).
Proof.
  split; [|apply Clear_missing].
  intros a s bp s1 w2 HB Hw.
  apply Break_cases in HB.
  destruct HB as [(f & l & _ & Hr & _)|(f & l & fn & HL & HB)]; [discriminate|].
  destruct HB as [(e & _ & Hr & _)|[(_ & Hr & _)|(b & Hp & Hb & HB)]];
    [discriminate|discriminate|].
  destruct HB as [(e & w' & _ & Hr & _)|(w' & Hpoke & Hr & ->)]; [discriminate|].
  inversion Hr; subst bp; clear Hr. cbn in Hw.
  exists b. split; [assumption|]. split; [reflexivity|]. split.
  - set (bp := mkBreakPoint (Name fn) f l a [b]).
    rewrite (Clear_removes a (installed a bp w' s) bp w2).
    + unfold removed, installed. cbn. rewrite delete_insert_eq. reflexivity.
    + unfold installed. cbn. apply lookup_insert_eq.
    + exact Hw.
  - intros Hlaw. eapply Hlaw. exact Hw.
Qed.

End BreakpointTable.

Section SteppingEngine.

Context {W : Type} (K : Kernel W) (img : Image).
Implicit Types s : DebuggedProcess W.

Lemma Registers_run s :
  Registers K s =
  match PtraceGetRegs K (tracee s) with
  | inl e => Done (Some (Errorf_err "Registers():" (SyscallError e))) (record KGetRegs s)
  | inr r => Done None (set_Regs r (record KGetRegs s))
  end.
Proof. go_simpl. cbn. destruct (PtraceGetRegs K (tracee s)); reflexivity. Qed.

Lemma CurrentPC_run s :
  CurrentPC K s =
  match PtraceGetRegs K (tracee s) with
  | inl e => Done (0, Some (Errorf_err "Registers():" (SyscallError e))) (record KGetRegs s)
  | inr r => Done (Rip r, None) (set_Regs r (record KGetRegs s))
  end.
Proof. go_simpl. cbn. destruct (PtraceGetRegs K (tracee s)); reflexivity. Qed.

(** [handleResult] always returns; it leaves the table alone, and sends
    nothing but a wait and a register read. *)
Lemma handleResult_frame e s :
  ∃ res s' mid,
    handleResult K e s = Done res s' ∧
    BreakPoints s' = BreakPoints s ∧
    ktrace s' = ktrace s ++ mid ∧
    Forall passive mid ∧
    (∀ n, e = Some n → res = Some (SyscallError n) ∧ s' = s ∧ mid = []) ∧
    (e = None → ∃ tl, mid = KWait :: tl).
Proof.
  destruct e as [n|].
  { exists (Some (SyscallError n)), s, [].
    split; [reflexivity|]. split; [reflexivity|].
    split; [symmetry; apply app_nil_r|]. split; [constructor|].
    split; [intros ? [= <-]; auto|discriminate]. }
  assert (Hp1 : Forall passive [KWait]).
  { constructor; [left; reflexivity|constructor]. }
  assert (Hp2 : Forall passive [KWait; KGetRegs]).
  { constructor; [left; reflexivity|]. constructor; [right; reflexivity|]. constructor. }
  unfold handleResult. go_simpl. cbn.
  destruct (Wait4 K (tracee s)) as [[n|ps] w'] eqn:HW; cbn.
  - destruct (bool_decide (n = ECHILD)); cbn;
      (eexists _, _, [KWait];
       split; [reflexivity|]; split; [reflexivity|]; split; [reflexivity|];
       split; [exact Hp1|]; split; [discriminate|eauto]).
  - destruct (decide (TrapCause ps = -1 ∧ Exited ps = false)); cbn.
    + destruct (PtraceGetRegs K w') as [n|r]; cbn;
        (eexists _, _, [KWait; KGetRegs];
         split; [reflexivity|]; split; [reflexivity|];
         split; [cbn; rewrite <- app_assoc; reflexivity|];
         split; [exact Hp2|]; split; [discriminate|eauto]).
    + eexists _, _, [KWait].
      split; [reflexivity|]. split; [reflexivity|]. split; [reflexivity|].
      split; [exact Hp1|]. split; [discriminate|eauto].
Qed.

Lemma Step_crossing s r bp w1 w2 :
  table_wf (BreakPoints s) →
  PtraceGetRegs K (tracee s) = inr r →
  BreakPoints s !! u64 (Rip r - 1) = Some bp →
  PtracePokeData K (Addr bp) (OriginalData bp) (tracee s) = (None, w1) →
  PtraceSetRegs K (SetPC r (Addr bp)) w1 = (None, w2) →
  Step K img s = resume_and_restore K img (Addr bp) (rewound s r bp w2).
Proof.
  intros Hwf Hr Hbp Hpoke Hset.
  assert (Hk : Addr bp = u64 (Rip r - 1)) by (apply Hwf; assumption).
  unfold Step, resume_and_restore, Clear. go_simpl. cbn.
  rewrite Hr. cbn. unfold PC. rewrite Hbp. cbn.
  rewrite Hk, Hbp. cbn. rewrite <- Hk. rewrite Hpoke. cbn.
  rewrite Hset. cbn.
  unfold rewound, record, set_Regs, set_tracee, set_BreakPoints. cbn.
  rewrite <- !app_assoc. cbn.
  destruct (PtraceSingleStep K w2) as [e w3]. cbn.
  match goal with |- match ?a with _ => _ end = match ?b with _ => _ end =>
    replace a with b; [|reflexivity] end.
  destruct (handleResult K e _) as [res s4| |]; reflexivity.
Qed.

Lemma resume_and_restore_total addr s :
  ∃ res s', resume_and_restore K img addr s = Done res s'.
Proof.
  unfold resume_and_restore. go_simpl. cbn.
  destruct (PtraceSingleStep K (tracee s)) as [e w3]. cbn.
  match goal with |- context [handleResult K e ?st] =>
    destruct (handleResult_frame e st) as (res & s4 & mid & Hh & _); rewrite Hh end.
  destruct (Break_total K img addr s4) as ([x err] & s5 & HB). rewrite HB.
  eauto.
Qed.

(** [Step] always returns: it has no loop and nothing in it panics. *)
Lemma Step_total s : ∃ res s', Step K img s = Done res s'.
Proof.
  unfold Step, Clear. go_simpl. cbn.
  destruct (PtraceGetRegs K (tracee s)) as [n|r]; cbn; [eauto|].
  destruct (BreakPoints s !! u64 (PC r - 1)) as [bp|]; cbn.
  - destruct (BreakPoints s !! Addr bp) as [bp0|]; cbn; [|eauto].
    destruct (PtracePokeData K (Addr bp0) (OriginalData bp0) (tracee s)) as [[n|] w1];
      cbn; [eauto|].
    destruct (PtraceSetRegs K _ w1) as [[n|] w2]; cbn; [eauto|].
    match goal with |- context [PtraceSingleStep K ?w] =>
      destruct (PtraceSingleStep K w) as [e w3] end. cbn.
    match goal with |- context [handleResult K e ?st] =>
      destruct (handleResult_frame e st) as (res & s4 & mid & Hh & _); rewrite Hh end.
    destruct (Break_total K img (Addr bp) s4) as ([x err] & s5 & HB).
    rewrite HB. eauto.
  - destruct (PtraceSingleStep K _) as [e w3]. cbn.
    match goal with |- context [handleResult K e ?st] =>
      destruct (handleResult_frame e st) as (res & s4 & mid & Hh & _); rewrite Hh end.
    destruct res; eauto.
Qed.

(** A [Step] parked on a trap that returns nil got both the restoring
    write and the register write through. *)
Lemma Step_crossing_ok_inv s s' r bp :
  table_wf (BreakPoints s) →
  PtraceGetRegs K (tracee s) = inr r →
  BreakPoints s !! u64 (Rip r - 1) = Some bp →
  Step K img s = Done None s' →
  ∃ w1 w2,
    PtracePokeData K (Addr bp) (OriginalData bp) (tracee s) = (None, w1) ∧
    PtraceSetRegs K (SetPC r (Addr bp)) w1 = (None, w2).
Proof.
  intros Hwf Hr Hbp HS.
  assert (Hk : Addr bp = u64 (Rip r - 1)) by (apply Hwf; assumption).
  destruct (PtracePokeData K (Addr bp) (OriginalData bp) (tracee s)) as [[n|] w1] eqn:Hpoke.
  { exfalso. revert HS. unfold Step, Clear. go_simpl. cbn.
    rewrite Hr. cbn. unfold PC. rewrite Hbp. cbn.
    rewrite Hk, Hbp. cbn. rewrite <- Hk. rewrite Hpoke. cbn. discriminate. }
  destruct (PtraceSetRegs K (SetPC r (Addr bp)) w1) as [[n|] w2] eqn:Hset.
  { exfalso. revert HS. unfold Step, Clear. go_simpl. cbn.
    rewrite Hr. cbn. unfold PC. rewrite Hbp. cbn.
    rewrite Hk, Hbp. cbn. rewrite <- Hk. rewrite Hpoke. cbn.
    rewrite Hset. cbn. discriminate. }
  eauto.
Qed.

(** C5, as the code has it.  A [Step] that starts parked on a
    breakpoint (one is filed under PC-1) and returns nil has: written
    the displaced byte back, set the PC to the breakpoint's address,
    and only then asked for the single-step; after the single-step and
    its wait, whether or not they failed, it has read the byte at the
    address and written 0xCC over it; the table it leaves is the table
    it found, with a record for the same address, and on a kernel that
    reads back what was written the byte there is 0xCC.  Nothing is
    said of where the PC ends up. *)
Theorem Step_restores_breakpoint s s' r bp :
  table_wf (BreakPoints s) →
  PtraceGetRegs K (tracee s) = inr r →
  BreakPoints s !! u64 (Rip r - 1) = Some bp →
  Step K img s = Done None s' →
  ∃ w1 w2 w_last mid bp',
    PtracePokeData K (Addr bp) (OriginalData bp) (tracee s) = (None, w1) ∧
    PtraceSetRegs K (SetPC r (Addr bp)) w1 = (None, w2) ∧
    ktrace s' =
      ktrace s
      ++ [KGetRegs; KPokeData (Addr bp) (OriginalData bp);
          KSetRegs (SetPC r (Addr bp)); KSingleStep]
      ++ mid
      ++ [KPeekData (Addr bp) 1; KPokeData (Addr bp) [0xCC]] ∧
    Forall passive mid ∧
    BreakPoints s' = <[Addr bp := bp']> (BreakPoints s) ∧
    Addr bp' = Addr bp ∧
    PtracePokeData K (Addr bp) [0xCC] w_last = (None, tracee s') ∧
    (poke_then_peek K → peek_byte K (Addr bp) (tracee s') = inr 0xCC).
Proof.
  intros Hwf Hr Hbp HS.
  destruct (Step_crossing_ok_inv s s' r bp Hwf Hr Hbp HS) as (w1 & w2 & Hpoke & Hset).
  rewrite (Step_crossing s r bp w1 w2 Hwf Hr Hbp Hpoke Hset) in HS.
  revert HS. unfold resume_and_restore. go_simpl. cbn.
  destruct (PtraceSingleStep K w2) as [e w3]. cbn.
  match goal with |- context [handleResult K e ?st] =>
    destruct (handleResult_frame e st) as (res & s4 & mid & Hh & Hbps & Hlog & Hmid & _);
    rewrite Hh end.
  destruct (Break K img (Addr bp) s4) as [[x err] s5| |] eqn:HB; try discriminate.
  intros [= -> ->].
  apply Break_cases in HB.
  destruct HB as [(f & l & _ & Hr' & _)|(f & l & fn & HL & HB)]; [discriminate|].
  destruct HB as [(n & _ & Hr' & _)|[(_ & Hr' & _)|(b & Hp & Hb & HB)]];
    [discriminate|discriminate|].
  destruct HB as [(n & w' & _ & Hr' & _)|(w' & Hpoke' & Hr' & ->)]; [discriminate|].
  exists w1, w2, (tracee s4), mid, (mkBreakPoint (Name fn) f l (Addr bp) [b]).
  split; [assumption|]. split; [assumption|].
  unfold installed. cbn. rewrite Hlog, Hbps. cbn.
  split; [rewrite <- !app_assoc; reflexivity|].
  split; [assumption|].
  split; [apply insert_delete_eq|].
  split; [reflexivity|].
  split; [assumption|].
  intros Hlaw. eapply Hlaw. eassumption.
Qed.

(** C10. When [Step] is parked on a breakpoint, has cleared it and
    rewound the PC, and the kernel then refuses the single-step, but the
    deferred [Break] at the breakpoint's address succeeds, [Step]
    returns nil: the deferred closure has overwritten the step failure.
    No wait was issued, and the breakpoint is back in the table. *)
Theorem Step_masks_step_failure s r bp w1 w2 e w3 f l fn b w4 :
  table_wf (BreakPoints s) →
  PtraceGetRegs K (tracee s) = inr r →
  BreakPoints s !! u64 (Rip r - 1) = Some bp →
  PtracePokeData K (Addr bp) (OriginalData bp) (tracee s) = (None, w1) →
  PtraceSetRegs K (SetPC r (Addr bp)) w1 = (None, w2) →
  PtraceSingleStep K w2 = (Some e, w3) →
  PCToLine img (Addr bp) = (f, l, Some fn) →
  peek_byte K (Addr bp) w3 = inr b →
  b ≠ 0xCC →
  PtracePokeData K (Addr bp) [0xCC] w3 = (None, w4) →
  Step K img s
  = Done None
      (mkDbp (SetPC r (Addr bp)) (ProcessState s)
         (<[Addr bp := mkBreakPoint (Name fn) f l (Addr bp) [b]]> (BreakPoints s))
         w4 (stdout s)
         (ktrace s
          ++ [KGetRegs; KPokeData (Addr bp) (OriginalData bp);
              KSetRegs (SetPC r (Addr bp)); KSingleStep;
              KPeekData (Addr bp) 1; KPokeData (Addr bp) [0xCC]])).
Proof.
  intros Hwf Hr Hbp Hpoke Hset Hstep HL Hp Hb Hpoke'.
  rewrite (Step_crossing s r bp w1 w2 Hwf Hr Hbp Hpoke Hset).
  unfold resume_and_restore. go_simpl. cbn. rewrite Hstep. cbn.
  unfold handleResult at 1. go_simpl. cbn.
  erewrite Break_installs; [|eassumption|cbn; eassumption|assumption|cbn; eassumption].
  unfold installed. cbn. rewrite insert_delete_eq. rewrite <- !app_assoc. reflexivity.
Qed.

(** A [Step] that returns nil leaves the same addresses in the table:
    what it cleared it has installed again. *)
Lemma Step_ok_addresses s s' :
  Step K img s = Done None s' → dom (BreakPoints s') = dom (BreakPoints s).
Proof.
  unfold Step, Clear. go_simpl. cbn.
  destruct (PtraceGetRegs K (tracee s)) as [n|r]; cbn; [discriminate|].
  destruct (BreakPoints s !! u64 (PC r - 1)) as [bp|]; cbn.
  - destruct (BreakPoints s !! Addr bp) as [bp0|] eqn:Hbp0; cbn; [|discriminate].
    destruct (PtracePokeData K (Addr bp0) (OriginalData bp0) (tracee s)) as [[n|] w1];
      cbn; [discriminate|].
    destruct (PtraceSetRegs K _ w1) as [[n|] w2]; cbn; [discriminate|].
    match goal with |- context [PtraceSingleStep K ?w] =>
      destruct (PtraceSingleStep K w) as [e w3] end. cbn.
    match goal with |- context [handleResult K e ?st] =>
      destruct (handleResult_frame e st) as (res & s4 & mid & Hh & Hbps & _);
      rewrite Hh end.
    cbn in Hbps.
    destruct (Break K img (Addr bp) s4) as [[x err] s5| |] eqn:HB; try discriminate.
    intros [= -> ->].
    apply Break_cases in HB.
    destruct HB as [(f & l & _ & Hr' & _)|(f & l & fn & HL & HB)]; [discriminate|].
    destruct HB as [(n & _ & Hr' & _)|[(_ & Hr' & _)|(b & Hp & Hb & HB)]];
      [discriminate|discriminate|].
    destruct HB as [(n & w' & _ & Hr' & _)|(w' & Hpoke' & Hr' & ->)]; [discriminate|].
    unfold installed. cbn. rewrite Hbps.
    rewrite dom_insert_L, dom_delete_L.
    assert (Addr bp ∈ dom (BreakPoints s)) by (apply elem_of_dom; eauto).
    apply set_eq. intros k. rewrite elem_of_union, elem_of_difference, elem_of_singleton.
    destruct (decide (k = Addr bp)) as [->|]; tauto.
  - destruct (PtraceSingleStep K _) as [e w3]. cbn.
    match goal with |- context [handleResult K e ?st] =>
      destruct (handleResult_frame e st) as (res & s4 & mid & Hh & Hbps & _);
      rewrite Hh end.
    destruct res; [discriminate|]. intros [= <-]. rewrite Hbps. reflexivity.
Qed.

(** C6. [Continue] runs [Step] once, first.  When that [Step] fails,
    [Continue] returns its error in the state [Step] left, and no
    continue request is sent.  When it succeeds, [Continue] sends the
    continue request with signal 0 and, unless the kernel refuses the
    request, waits; beyond the wait it sends at most a register read,
    and it leaves the breakpoint table as [Step] left it. *)
Theorem Continue_spec s :
  ∃ res s1,
    Step K img s = Done res s1 ∧
    (∀ err, res = Some err → Continue K img s = Done (Some err) s1) ∧
    (res = None →
       ∃ e w' res' s2 mid,
         PtraceCont K 0 (tracee s1) = (e, w') ∧
         Continue K img s = Done res' s2 ∧
         ktrace s2 = ktrace s1 ++ KCont 0 :: mid ∧
         Forall passive mid ∧
         BreakPoints s2 = BreakPoints s1 ∧
         (e = None → ∃ tl, mid = KWait :: tl) ∧
         (∀ n, e = Some n → res' = Some (SyscallError n) ∧ mid = [] ∧ tracee s2 = w')).
Proof.
  destruct (Step_total s) as (res & s1 & HS). exists res, s1.
  split; [assumption|]. split.
  - intros err ->. unfold Continue. go_simpl. rewrite HS. reflexivity.
  - intros ->. unfold Continue. go_simpl. rewrite HS. cbn.
    destruct (PtraceCont K 0 (tracee s1)) as [e w'] eqn:HC. cbn.
    match goal with |- context [handleResult K e ?st] =>
      destruct (handleResult_frame e st)
        as (res' & s2 & mid & Hh & Hbps & Hlog & Hmid & Herr & Hok) end.
    exists e, w', res', s2, mid.
    split; [reflexivity|]. split; [assumption|].
    split; [rewrite Hlog; cbn; rewrite <- app_assoc; reflexivity|].
    split; [assumption|]. split; [rewrite Hbps; reflexivity|].
    split; [assumption|].
    intros n ->. destruct (Herr n eq_refl) as (-> & -> & ->). auto.
Qed.

End SteppingEngine.

Section NextLoop.

Context {W : Type} (K : Kernel W) (img : Image).
Implicit Types s : DebuggedProcess W.

Lemma Next_step_cases s pc err s' :
  Next_step K img s = Done (pc, err) s' →
  match err with
  | Some e => formatted e
  | None => PtraceGetRegs K (tracee s') = inr (Regs s') ∧ pc = Rip (Regs s')
  end.
Proof.
  unfold Next_step. unfold mbind at 1, M_bind at 1.
  destruct (Step K img s) as [[e|] s1| |]; try discriminate.
  - intros [= <- <- <-]. exact I.
  - rewrite CurrentPC_run.
    destruct (PtraceGetRegs K (tracee s1)) as [n|r] eqn:Hr.
    + intros [= <- <- <-]. exact I.
    + intros [= <- <- <-]. cbn. auto.
Qed.

(** The errors the loop of [Next] returns are those [step()] made: what
    [continueToReturnAddress] returns never leaves the loop. *)
Lemma Next_loop_errors fuel fde l ret_addr s e s' :
  Next_loop K img fuel fde l ret_addr s = Done (Some e) s' → formatted e.
Proof.
  revert s. induction fuel as [|fuel IH]; intros s; [discriminate|].
  cbn [Next_loop]. unfold mbind at 1, M_bind at 1.
  destruct (Next_step K img s) as [[pc [e0|]] s1| |] eqn:HN; try discriminate.
  - apply Next_step_cases in HN. intros [= <- <-]. exact HN.
  - destruct (negb (Cover fde pc) && negb (bool_decide (pc = ret_addr))).
    + unfold mbind at 1, M_bind at 1.
      destruct (continueToReturnAddress K img (S fuel) pc fde s1) as [r s2| |];
        try discriminate.
      unfold mbind at 1, M_bind at 1.
      destruct (CurrentPC K s2) as [[pc2 e2] s3| |]; try discriminate.
      destruct (PCToLine img pc2) as [[f nl] fn].
      destruct (decide (nl ≠ l)); [discriminate|]. apply IH.
    + destruct (PCToLine img pc) as [[f nl] fn].
      destruct (decide (nl ≠ l)); [discriminate|]. apply IH.
Qed.

(** When the loop of [Next] returns nil and the registers can be read,
    the PC is on a line other than [l]. *)
Lemma Next_loop_ok_line fuel fde l ret_addr s s' r :
  Next_loop K img fuel fde l ret_addr s = Done None s' →
  PtraceGetRegs K (tracee s') = inr r →
  (PCToLine img (Rip r)).1.2 ≠ l.
Proof.
  revert s. induction fuel as [|fuel IH]; intros s; [discriminate|].
  cbn [Next_loop]. unfold mbind at 1, M_bind at 1.
  destruct (Next_step K img s) as [[pc [e0|]] s1| |] eqn:HN; try discriminate.
  apply Next_step_cases in HN. destruct HN as [Hregs Hpc].
  destruct (negb (Cover fde pc) && negb (bool_decide (pc = ret_addr))).
  - unfold mbind at 1, M_bind at 1.
    destruct (continueToReturnAddress K img (S fuel) pc fde s1) as [res s2| |];
      try discriminate.
    unfold mbind at 1, M_bind at 1. rewrite CurrentPC_run.
    destruct (PtraceGetRegs K (tracee s2)) as [n|r2] eqn:Hr2.
    + destruct (PCToLine img 0) as [[f nl] fn].
      destruct (decide (nl ≠ l)); [|apply IH].
      intros [= <-]. cbn. rewrite Hr2. discriminate.
    + destruct (PCToLine img (Rip r2)) as [[f nl] fn] eqn:HL.
      destruct (decide (nl ≠ l)) as [Hnl|]; [|apply IH].
      intros [= <-]. cbn. rewrite Hr2. intros [= <-]. rewrite HL. exact Hnl.
  - destruct (PCToLine img pc) as [[f nl] fn] eqn:HL.
    destruct (decide (nl ≠ l)) as [Hnl|]; [|apply IH].
    intros [= <-]. rewrite Hregs. intros [= <-]. rewrite <- Hpc, HL. exact Hnl.
Qed.

(** X12. An error [Next] returns was made by [fmt.Errorf] or comes from
    the frame oracle: never from [Break]. *)
Lemma Next_errors fuel s e s' :
  Next K img fuel s = Done (Some e) s' →
  formatted e ∨ ∃ pc, FDEForPC img pc = inl e.
Proof.
  unfold Next. unfold mbind at 1, M_bind at 1. rewrite CurrentPC_run.
  destruct (PtraceGetRegs K (tracee s)) as [n|r].
  { intros [= <- <-]. left. exact I. }
  unfold mbind at 1, M_bind at 1, gets at 1.
  match goal with |- context [PCToLine img ?pc] =>
    destruct (PCToLine img pc) as [[f l] fn];
    destruct (FDEForPC img pc) as [e0|fde] eqn:HF end.
  { intros [= <- <-]. right. eauto. }
  unfold mbind at 1, M_bind at 1.
  match goal with |- context [ReturnAddressFromOffset K ?o ?st] =>
    destruct (ReturnAddressFromOffset K o st) as [ra s1| |] end; try discriminate.
  intros H. left. eapply Next_loop_errors. exact H.
Qed.

(** X11. When [Next] returns nil and the registers can still be read,
    the PC is on a line other than the line [Next] started on (the line
    of PC-1 when a breakpoint is filed there). *)
Lemma Next_ok_line fuel s s' r0 r :
  Next K img fuel s = Done None s' →
  PtraceGetRegs K (tracee s) = inr r0 →
  PtraceGetRegs K (tracee s') = inr r →
  (PCToLine img (Rip r)).1.2
  ≠ (PCToLine img match BreakPoints s !! u64 (Rip r0 - 1) with
                  | Some _ => u64 (Rip r0 - 1)
                  | None => Rip r0
                  end).1.2.
Proof.
  intros HN Hr0. revert HN.
  unfold Next. unfold mbind at 1, M_bind at 1. rewrite CurrentPC_run, Hr0.
  unfold mbind at 1, M_bind at 1, gets at 1. cbn [BreakPoints set_Regs record].
  match goal with |- context [PCToLine img ?pc] =>
    destruct (PCToLine img pc) as [[f l] fn];
    destruct (FDEForPC img pc) as [e0|fde] end; [discriminate|].
  unfold mbind at 1, M_bind at 1.
  match goal with |- context [ReturnAddressFromOffset K ?o ?st] =>
    destruct (ReturnAddressFromOffset K o st) as [ra s1| |] end; try discriminate.
  intros H Hr. cbn. eapply Next_loop_ok_line; eassumption.
Qed.

End NextLoop.

Section Decoding.

Lemma IndexByte_absent (val : list Z) (c : Z) :
  Forall (λ b, b ≠ c) val → IndexByte val c = -1.
Proof.
  induction 1 as [|b val Hb _ IH]; [reflexivity|].
  cbn. destruct (decide (b = c)); [contradiction|].
  rewrite IH. reflexivity.
Qed.

Lemma le_decode_nonneg (bs : list Z) :
  Forall is_byte bs → 0 ≤ le_decode bs.
Proof. unfold is_byte. induction 1; cbn; lia. Qed.

Lemma Uint64_nonneg (bs : list Z) :
  Forall is_byte bs → 0 ≤ Uint64 bs.
Proof.
  intros H. apply le_decode_nonneg. apply Forall_take. exact H.
Qed.

Lemma read_uint64s_length (n : nat) (buf : list Z) :
  length buf = (8 * n)%nat → length (read_uint64s buf) = n.
Proof.
  revert buf. induction n as [|n IH]; intros buf Hlen.
  - destruct buf; [reflexivity|discriminate].
  - do 8 (destruct buf as [|? buf]; [cbn in Hlen; lia|]).
    cbn [read_uint64s length]. f_equal. apply IH. cbn in Hlen. lia.
Qed.

Lemma read_uint64s_lookup (n i : nat) (buf : list Z) :
  length buf = (8 * n)%nat → (i < n)%nat →
  read_uint64s buf !! i = Some (Uint64 (drop (8 * i) buf)).
Proof.
  revert i buf. induction n as [|n IH]; intros i buf Hlen Hi; [lia|].
  do 8 (destruct buf as [|? buf]; [cbn in Hlen; lia|]).
  destruct i as [|i].
  - reflexivity.
  - cbn [read_uint64s]. rewrite lookup_cons_ne_0 by lia. cbn [pred].
    replace (8 * S i)%nat with (8 + 8 * i)%nat by lia.
    cbn [drop Nat.add]. apply IH; [cbn in Hlen|]; lia.
Qed.

End Decoding.

Section VariableEvaluator.

Context {W : Type} (K : Kernel W) (img : Image).
Implicit Types s : DebuggedProcess W.

Lemma peek_bytes_length a n w bs :
  peek_bytes K a n w = inr bs → length bs = n.
Proof.
  revert a bs. induction n as [|n IH]; intros a bs; cbn.
  - intros [= <-]. reflexivity.
  - destruct (peek_byte K a w); [discriminate|].
    destruct (peek_bytes K (u64 (a + 1)) n w) eqn:E; [discriminate|].
    intros [= <-]. cbn. f_equal. eapply IH. eassumption.
Qed.

Lemma readMemory_run addr size s :
  size ≤ maxAlloc img →
  readMemory K img addr size s =
  Done (match peek_bytes K addr (Z.to_nat size) (tracee s) with
        | inl e => ([], Some (SyscallError e))
        | inr buf => (buf, None)
        end)
       (record (KPeekData addr (Z.to_nat size)) s).
Proof.
  intros Hsz. unfold readMemory. destruct (decide (size > maxAlloc img)); [lia|].
  go_simpl. cbn. destruct (peek_bytes K addr (Z.to_nat size) (tracee s)); reflexivity.
Qed.

(** C9. When the eight bytes at [addr] and the sixteen bytes at the
    pointer they hold can be read, and none of the sixteen is 0x00,
    [bytes.IndexByte] answers -1 and [readString] panics on [val[:i]]:
    it returns neither a string nor an error. *)
Theorem readString_panics_without_NUL addr s ptr val :
  16 ≤ maxAlloc img →
  peek_bytes K addr 8 (tracee s) = inr ptr →
  peek_bytes K (Uint64 ptr) 16 (tracee s) = inr val →
  Forall (λ b, b ≠ 0) val →
  IndexByte val 0 = -1 ∧
  readString K img addr s = Panic slice_bounds_out_of_range.
Proof.
  intros Hmax Hptr Hval Hnz.
  assert (Hi : IndexByte val 0 = -1) by (apply IndexByte_absent; assumption).
  split; [assumption|].
  unfold readString. unfold mbind at 1, M_bind at 1.
  rewrite readMemory_run by lia. change (Z.to_nat 8) with 8%nat. rewrite Hptr.
  unfold mbind at 1, M_bind at 1.
  rewrite readMemory_run by lia. change (Z.to_nat 16) with 16%nat. cbn [tracee record].
  rewrite Hval. rewrite Hi.
  destruct (decide (-1 < 0 ∨ -1 > Z.of_nat (length val))) as [_|Hn]; [reflexivity|].
  exfalso. apply Hn. left. lia.
Qed.

Lemma readIntSlice_run addr s hdr data :
  let a := Uint64 (take 8 hdr) in
  let l := Uint64 (take 8 (drop 8 hdr)) in
  let c := Uint64 (take 8 (drop 16 hdr)) in
  24 ≤ maxAlloc img →
  0 ≤ l → 8 * l ≤ maxAlloc img → maxAlloc img < 2 ^ 64 →
  peek_bytes K addr 24 (tracee s) = inr hdr →
  peek_bytes K a (Z.to_nat (8 * l)) (tracee s) = inr data →
  readIntSlice K img addr s
  = Done (rendered_slice l c (read_uint64s data), None)
         (record (KPeekData a (Z.to_nat (8 * l))) (record (KPeekData addr 24) s)).
Proof.
  intros a l c Hmax Hl0 Hl Hlim Hhdr Hdata.
  assert (Hu : u64 (8 * l) = 8 * l).
  { unfold u64. apply Z.mod_small. lia. }
  unfold readIntSlice. unfold mbind at 1, M_bind at 1.
  rewrite readMemory_run by lia. change (Z.to_nat 24) with 24%nat. rewrite Hhdr.
  fold a l c. unfold mbind at 1, M_bind at 1. rewrite Hu.
  rewrite readMemory_run by lia. cbn [tracee record]. rewrite Hdata.
  destruct (decide (8 * l > maxAlloc img)); [lia|]. reflexivity.
Qed.

(** C8. Evaluating a variable whose type is the struct [[]int]: with
    the registers read, the frame found and the location expression
    yielding [o], the base address is [rsp + o]; the 24 bytes read there
    are the header, decoded little-endian as data pointer, length [l]
    and capacity [c]; [8 * l] bytes are read at the data pointer (for a
    length within the allocation limit); and the value is
    "len: l cap: c [v1 v2 ...]" where the [vi] are [l] in number and
    [vi] decodes the eight bytes at offset [8 * i] of what was read. *)
Theorem extractValue_int_slice instructions fields s r fde o hdr data :
  let base := u64 (i64 (i64 (Rsp r) + o)) in
  let a := Uint64 (take 8 hdr) in
  let l := Uint64 (take 8 (drop 8 hdr)) in
  let c := Uint64 (take 8 (drop 16 hdr)) in
  Forall is_byte hdr →
  24 ≤ maxAlloc img → maxAlloc img < 2 ^ 64 →
  PtraceGetRegs K (tracee s) = inr r →
  FDEForPC img (Rip r) = inr fde →
  ExecuteStackProgram img (CFAOffset fde (Rip r)) instructions = inr o →
  peek_bytes K base 24 (tracee s) = inr hdr →
  8 * l ≤ maxAlloc img →
  peek_bytes K a (Z.to_nat (8 * l)) (tracee s) = inr data →
  ∃ members,
    extractValue K img (StructType "[]int" fields) instructions 0 s
    = Done (rendered_slice l c members, None)
           (mkDbp r (ProcessState s) (BreakPoints s) (tracee s) (stdout s)
              (ktrace s ++ [KGetRegs; KPeekData base 24;
                            KPeekData a (Z.to_nat (8 * l))])) ∧
    length members = Z.to_nat l ∧
    ∀ i, (i < Z.to_nat l)%nat → members !! i = Some (Uint64 (drop (8 * i) data)).
Proof.
  intros base a l c HK Hmax Hlim Hr Hfde Hprog Hhdr Hl Hdata.
  assert (Hl0 : 0 ≤ l).
  { apply Uint64_nonneg. apply Forall_take, Forall_drop. exact HK. }
  assert (Hlen : length data = (8 * Z.to_nat l)%nat).
  { rewrite (peek_bytes_length _ _ _ _ Hdata). lia. }
  exists (read_uint64s data). split; [|split].
  - cbn [extractValue]. unfold mbind at 1, M_bind at 1.
    rewrite Registers_run, Hr.
    unfold mbind at 1, M_bind at 1, gets at 1. cbn [Regs set_Regs].
    unfold PC. rewrite Hfde.
    destruct (decide (0 = 0)) as [_|?]; [|contradiction].
    rewrite Hprog. fold base.
    destruct (decide ("[]int" = "string")) as [?|_]; [discriminate|].
    destruct (decide ("[]int" = "[]int")) as [_|?]; [|contradiction].
    erewrite readIntSlice_run; [|eassumption|exact Hl0|eassumption|eassumption|exact Hhdr|exact Hdata].
    unfold record, set_Regs. cbn. rewrite <- !app_assoc. reflexivity.
  - apply read_uint64s_length. exact Hlen.
  - intros i Hi. eapply read_uint64s_lookup; eassumption.
Qed.

End VariableEvaluator.

(** ** Runs on the scripted tracee *)

Section ScriptedTracee.

Import Fixture.

Lemma sim_poke_then_peek : poke_then_peek SimKernel.
Proof.
  intros a b w w'. cbn. unfold sim_poke, sim_peek.
  destruct (sim_alive w); [|discriminate]. cbn.
  destruct (sim_mem w !! a); [|discriminate].
  intros [= <-]. cbn. rewrite lookup_insert_eq. reflexivity.
Qed.

Lemma table_wf_empty : table_wf ∅.
Proof. intros k bp H. rewrite lookup_empty in H. discriminate. Qed.

Lemma table_wf_insert (t : gmap Z BreakPoint) (bp : BreakPoint) :
  table_wf t → table_wf (<[Addr bp := bp]> t).
Proof.
  intros Ht k bp' H. destruct (decide (Addr bp = k)) as [<-|Hne].
  - rewrite lookup_insert_eq in H. congruence.
  - rewrite lookup_insert_ne in H by assumption. eapply Ht. eassumption.
Qed.

Lemma table_wf_past_trap script : table_wf (BreakPoints (past_trap script)).
Proof. apply (table_wf_insert ∅ (bp_main 0x1010)), table_wf_empty. Qed.

Lemma Break_spec_witness :
  Break SimKernel img 0 fresh = Done (None, Some (InvalidAddressError 0)) fresh
  ∧ Break SimKernel img 0x1010 trapped
    = Done (None, Some (BreakPointExistsError "main.go" 11 0x1010))
           (record (KPeekData 0x1010 1) trapped)
  ∧ (let bp := mkBreakPoint (Name (mkFunc "main.main" 0x1000)) "main.go" 11 0x1010 [0x90] in
     let s1 := installed 0x1010 bp (with_trap 0x1010 (tracee fresh)) fresh in
     Break SimKernel img 0x1010 fresh = Done (Some bp, None) s1 ∧
     BreakPoints s1 !! 0x1010 = Some bp ∧
     tracee s1 = with_trap 0x1010 (tracee fresh) ∧
     (poke_then_peek SimKernel →
        Break SimKernel img 0x1010 s1
        = Done (None, Some (BreakPointExistsError "main.go" 11 0x1010))
               (record (KPeekData 0x1010 1) s1))).
Proof.
  split; [|split].
  - exact (proj1 (Break_spec SimKernel img 0 fresh "" 0 None eq_refl) eq_refl).
  - exact (proj1 (proj2 (Break_spec SimKernel img 0x1010 trapped "main.go" 11
                           (Some (mkFunc "main.main" 0x1000))
                           ltac:(vm_compute; reflexivity)))
             (ex_intro _ _ eq_refl) ltac:(vm_compute; reflexivity)).
  - exact (proj2 (proj2 (Break_spec SimKernel img 0x1010 fresh "main.go" 11
                           (Some (mkFunc "main.main" 0x1000))
                           ltac:(vm_compute; reflexivity)))
             (mkFunc "main.main" 0x1000) 0x90 (with_trap 0x1010 (tracee fresh))
             eq_refl ltac:(vm_compute; reflexivity) ltac:(discriminate)
             ltac:(vm_compute; reflexivity)).
Defined.

Lemma Break_Clear_roundtrip_witness :
  (∃ b,
     peek_byte SimKernel 0x1010 (tracee fresh) = inr b ∧
     OriginalData (bp_main 0x1010) = [b] ∧
     Clear SimKernel 0x1010 broken
     = Done (Some (bp_main 0x1010), None)
            (mkDbp (Regs broken) (ProcessState broken)
               (delete 0x1010 (BreakPoints fresh)) restored
               (stdout broken) (ktrace broken ++ [KPokeData 0x1010 [b]])) ∧
     (poke_then_peek SimKernel → peek_byte SimKernel 0x1010 restored = inr b))
  ∧ Clear SimKernel 0x1010 fresh
    = Done (None, Some (Errorf_uint "No breakpoint currently set for %#v" 0x1010)) fresh.
Proof.
  split.
  - exact (proj1 (Break_Clear_roundtrip SimKernel img) 0x1010 fresh (bp_main 0x1010)
             broken restored
             ltac:(vm_compute; reflexivity) ltac:(vm_compute; reflexivity)).
  - exact (proj2 (Break_Clear_roundtrip SimKernel img) 0x1010 fresh eq_refl).
Defined.

Lemma Step_restores_breakpoint_witness :
  ∃ w1 w2 w_last mid bp',
    PtracePokeData SimKernel (Addr (bp_main 0x1010)) (OriginalData (bp_main 0x1010))
      (tracee loop_back) = (None, w1) ∧
    PtraceSetRegs SimKernel (SetPC (mkRegs 0x1011 0x7000) (Addr (bp_main 0x1010))) w1
      = (None, w2) ∧
    ktrace (run (Step SimKernel img) loop_back) =
      ktrace loop_back
      ++ [KGetRegs; KPokeData (Addr (bp_main 0x1010)) (OriginalData (bp_main 0x1010));
          KSetRegs (SetPC (mkRegs 0x1011 0x7000) (Addr (bp_main 0x1010))); KSingleStep]
      ++ mid
      ++ [KPeekData (Addr (bp_main 0x1010)) 1; KPokeData (Addr (bp_main 0x1010)) [0xCC]] ∧
    Forall passive mid ∧
    BreakPoints (run (Step SimKernel img) loop_back)
      = <[Addr (bp_main 0x1010) := bp']> (BreakPoints loop_back) ∧
    Addr bp' = Addr (bp_main 0x1010) ∧
    PtracePokeData SimKernel (Addr (bp_main 0x1010)) [0xCC] w_last
      = (None, tracee (run (Step SimKernel img) loop_back)) ∧
    (poke_then_peek SimKernel →
       peek_byte SimKernel (Addr (bp_main 0x1010))
         (tracee (run (Step SimKernel img) loop_back)) = inr 0xCC).
Proof.
  exact (Step_restores_breakpoint SimKernel img loop_back
           (run (Step SimKernel img) loop_back) (mkRegs 0x1011 0x7000) (bp_main 0x1010)
           (table_wf_past_trap _)
           ltac:(vm_compute; reflexivity) ltac:(vm_compute; reflexivity)
           ltac:(vm_compute; reflexivity)).
Defined.

(** C5 as the spec has it fails on the PC: a [Step] over the trap at
    [0x1010], parked at [0x1011], succeeds, leaves the breakpoint in the
    table and 0xCC in memory, and the tracee, whose instruction there
    jumps back, is at [0x1000]. *)
Lemma Step_pc_not_greater :
  BreakPoints loop_back !! u64 (Rip (sim_regs (tracee loop_back)) - 1)
    = Some (bp_main 0x1010)
  ∧ summary (Step SimKernel img loop_back)
    = Some (None, [0x1010], mkRegs 0x1000 0x7000,
            [KGetRegs; KPokeData 0x1010 [0x90]; KSetRegs (mkRegs 0x1010 0x7000);
             KSingleStep; KWait; KPeekData 0x1010 1; KPokeData 0x1010 [0xCC]])
  ∧ peek_byte SimKernel 0x1010 (tracee (run (Step SimKernel img) loop_back)) = inr 0xCC
  ∧ ¬ (Rip (sim_regs (tracee loop_back))
       < Rip (sim_regs (tracee (run (Step SimKernel img) loop_back)))).
Proof.
  split; [vm_compute; reflexivity|].
  split; [vm_compute; reflexivity|].
  split; [vm_compute; reflexivity|].
  vm_compute. discriminate.
Qed.

Lemma Step_masks_step_failure_witness :
  Step SimKernel img step_refused
  = Done None
      (mkDbp (SetPC (mkRegs 0x1011 0x7000) (Addr (bp_main 0x1010)))
         (ProcessState step_refused)
         (<[Addr (bp_main 0x1010) :=
              mkBreakPoint (Name (mkFunc "main.main" 0x1000)) "main.go" 11
                (Addr (bp_main 0x1010)) [0x90]]> (BreakPoints step_refused))
         (trap_again step_refused) (stdout step_refused)
         (ktrace step_refused
          ++ [KGetRegs;
              KPokeData (Addr (bp_main 0x1010)) (OriginalData (bp_main 0x1010));
              KSetRegs (SetPC (mkRegs 0x1011 0x7000) (Addr (bp_main 0x1010)));
              KSingleStep;
              KPeekData (Addr (bp_main 0x1010)) 1;
              KPokeData (Addr (bp_main 0x1010)) [0xCC]])).
Proof.
  exact (Step_masks_step_failure SimKernel img step_refused
           (mkRegs 0x1011 0x7000) (bp_main 0x1010)
           (trap_lifted step_refused) (pc_rewound step_refused) EIO
           (resumed step_refused) "main.go" 11 (mkFunc "main.main" 0x1000) 0x90
           (trap_again step_refused)
           (table_wf_past_trap _)
           ltac:(vm_compute; reflexivity) ltac:(vm_compute; reflexivity)
           ltac:(vm_compute; reflexivity) ltac:(vm_compute; reflexivity)
           ltac:(vm_compute; reflexivity) ltac:(vm_compute; reflexivity)
           ltac:(vm_compute; reflexivity) ltac:(discriminate)
           ltac:(vm_compute; reflexivity)).
Defined.

(** [Continue] from [0x1000]: one single-step, one continue with signal
    0, a wait after each. *)
Example Continue_two_stops :
  summary (Continue SimKernel img two_stops)
  = Some (None, [], mkRegs 0x1011 0x7000,
          [KGetRegs; KSingleStep; KWait; KCont 0; KWait]).
Proof. vm_compute. reflexivity. Qed.

Lemma extractValue_int_slice_witness :
  ∃ members,
    extractValue SimKernel img (StructType "[]int" []) [] 0 with_slice
    = Done (rendered_slice 5 5 members, None)
           (mkDbp (mkRegs 0x1000 0x7000) (ProcessState with_slice)
              (BreakPoints with_slice) (tracee with_slice) (stdout with_slice)
              (ktrace with_slice ++ [KGetRegs; KPeekData 0x7000 24; KPeekData 0x7020 40])) ∧
    length members = 5%nat ∧
    ∀ i, (i < 5)%nat → members !! i = Some (Uint64 (drop (8 * i) slice_data)).
Proof.
  exact (extractValue_int_slice SimKernel img [] [] with_slice
           (mkRegs 0x1000 0x7000) fde_main 0 slice_header slice_data
           ltac:(compute_done)
           ltac:(vm_compute; discriminate) ltac:(vm_compute; reflexivity)
           ltac:(vm_compute; reflexivity) ltac:(vm_compute; reflexivity)
           ltac:(vm_compute; reflexivity) ltac:(vm_compute; reflexivity)
           ltac:(vm_compute; discriminate) ltac:(vm_compute; reflexivity)).
Defined.

(** The slice of the test suite: [a5] evaluates to this string. *)
Example extractValue_a5 :
  result (extractValue SimKernel img (StructType "[]int" []) [] 0 with_slice)
  = Some ("len: 5 cap: 5 [1 2 3 4 5]", None).
Proof. vm_compute. reflexivity. Qed.

Lemma readString_panics_without_NUL_witness :
  IndexByte (replicate 16 0x61) 0 = -1 ∧
  readString SimKernel img 0x7000 with_string = Panic slice_bounds_out_of_range.
Proof.
  exact (readString_panics_without_NUL SimKernel img 0x7000 with_string
           (word 0x7010) (replicate 16 0x61)
           ltac:(vm_compute; discriminate)
           ltac:(vm_compute; reflexivity) ltac:(vm_compute; reflexivity)
           ltac:(compute_done)).
Defined.

(** C1 on the code.  [Next] from [0x1000] steps into [main.f], reached
    by a tail jump; [continueToReturnAddress] reads [0x1F00] as the
    return address, which no function covers: [Break(0x1F00)] fails with
    [InvalidAddressError] and [continueToReturnAddress] returns that
    error.  [Next] goes on: it reads the PC, finds line 50, and returns
    nil, stopped inside [main.f]. *)
Lemma Next_drops_InvalidAddressError :
  Next SimKernel img 10 tail_jump
    = Next_loop SimKernel img 10 fde_main 10 0x1F00 (loop_entry tail_jump)
  ∧ summary (Next_step SimKernel img (loop_entry tail_jump))
    = Some ((0x3000, None), [], mkRegs 0x3000 0x7008,
            [KGetRegs; KGetRegs; KPeekText 0x7008 8; KGetRegs; KSingleStep; KWait; KGetRegs])
  ∧ Cover fde_main 0x3000 = false
  ∧ summary (continueToReturnAddress SimKernel img 10 0x3000 fde_main
               (run (Next_step SimKernel img) (loop_entry tail_jump)))
    = Some (Some (InvalidAddressError 0x1F00), [], mkRegs 0x3000 0x7008,
            [KGetRegs; KGetRegs; KPeekText 0x7008 8; KGetRegs; KSingleStep; KWait; KGetRegs;
             KGetRegs; KPeekText 0x7008 8])
  ∧ summary (Next SimKernel img 10 tail_jump)
    = Some (None, [], mkRegs 0x3000 0x7008,
            [KGetRegs; KGetRegs; KPeekText 0x7008 8; KGetRegs; KSingleStep; KWait; KGetRegs;
             KGetRegs; KPeekText 0x7008 8; KGetRegs]).
Proof. repeat (apply conj); vm_compute; reflexivity. Qed.

(** C2 on the code.  [Next] from [0x1000] steps into [main.f], called
    from [0x1000] with return address [0x1005], where the user has a
    breakpoint.  [Break(0x1005)] fails with [BreakPointExistsError] and
    yields no record; [Continue] runs to the user's breakpoint and
    succeeds; [bp.Addr] is then read through the nil [bp], and [Next]
    panics. *)
Lemma Next_panics_on_BreakPointExistsError :
  summary (Next_step SimKernel img (loop_entry return_to_user_breakpoint))
    = Some ((0x3000, None), [0x1005], mkRegs 0x3000 0x6FF8,
            [KGetRegs; KGetRegs; KPeekText 0x7008 8; KGetRegs; KSingleStep; KWait; KGetRegs])
  ∧ summary (Break SimKernel img 0x1005
               (run (Next_step SimKernel img) (loop_entry return_to_user_breakpoint)))
    = Some ((None, Some (BreakPointExistsError "main.go" 10 0x1005)), [0x1005],
            mkRegs 0x3000 0x6FF8,
            [KGetRegs; KGetRegs; KPeekText 0x7008 8; KGetRegs; KSingleStep; KWait; KGetRegs;
             KPeekData 0x1005 1])
  ∧ continueToReturnAddress SimKernel img 10 0x3000 fde_main
      (run (Next_step SimKernel img) (loop_entry return_to_user_breakpoint))
    = Panic nil_pointer_dereference
  ∧ Next SimKernel img 10 return_to_user_breakpoint = Panic nil_pointer_dereference.
Proof. repeat (apply conj); vm_compute; reflexivity. Qed.

(** C7 on the code.  [Next] from [0x1000], no breakpoint in the table,
    steps into [main.f]; the temporary breakpoint goes in at [0x1005];
    the tracee exits inside [main.f]; [clearTempBreakpoint] fails on its
    register read and [continueToReturnAddress] returns the error with
    the temporary breakpoint still in the table.  [Next] drops the
    error, reads PC 0, finds line 0, and returns nil: the table on
    return holds [0x1005]. *)
Lemma Next_leaves_temporary_breakpoint :
  BreakPoints callee_exits = ∅
  ∧ summary (Next SimKernel img 10 callee_exits)
    = Some (None, [0x1005], mkRegs 0x3001 0x6FF8,
            [KGetRegs; KGetRegs; KPeekText 0x7008 8; KGetRegs; KSingleStep; KWait; KGetRegs;
             KGetRegs; KPeekText 0x6FF8 8; KPeekData 0x1005 1; KPokeData 0x1005 [0xCC];
             KGetRegs; KSingleStep; KWait; KCont 0; KWait; KGetRegs; KGetRegs])
  ∧ result (CurrentPC SimKernel (run (Next SimKernel img 10) callee_exits))
    = Some (0, Some (Errorf_err "Registers():" (SyscallError ESRCH))).
Proof. repeat (apply conj); vm_compute; reflexivity. Qed.

(** When the callee returns, [Next] ends on the next line with the
    table as it found it. *)
Example Next_over_call :
  summary (Next SimKernel img 10 callee_returns)
  = Some (None, [], mkRegs 0x1010 0x7000,
          [KGetRegs; KGetRegs; KPeekText 0x7008 8; KGetRegs; KSingleStep; KWait; KGetRegs;
           KGetRegs; KPeekText 0x6FF8 8; KPeekData 0x1005 1; KPokeData 0x1005 [0xCC];
           KGetRegs; KSingleStep; KWait; KCont 0; KWait;
           KGetRegs; KPokeData 0x1005 [0x90]; KSetRegs (mkRegs 0x1005 0x7000);
           KGetRegs; KGetRegs; KGetRegs; KSingleStep; KWait; KGetRegs]).
Proof. vm_compute. reflexivity. Qed.

End ScriptedTracee.

(** ** What the engine keeps of the table *)

Section TableInvariant.

Context {W : Type} (K : Kernel W) (img : Image).
Implicit Types s : DebuggedProcess W.

Variable P : gmap Z BreakPoint → Prop.
Hypothesis P_delete : ∀ t k, P t → P (delete k t).
Hypothesis P_insert :
  ∀ t addr f l fn b,
    P t → PCToLine img addr = (f, l, Some fn) → b ≠ 0xCC →
    P (<[addr := mkBreakPoint (Name fn) f l addr [b]]> t).

Lemma keeps_ret {A} (a : A) : keeps (W:=W) P (ret a).
Proof. intros s a' s' HP [= <- <-]. exact HP. Qed.

Lemma keeps_bind {A B} (m : M (DebuggedProcess W) A) (f : A → M (DebuggedProcess W) B) :
  keeps P m → (∀ a, keeps P (f a)) → keeps P (m ≫= f).
Proof.
  intros Hm Hf s b s' HP. unfold mbind, M_bind.
  destruct (m s) as [a s1| |] eqn:Em; try discriminate.
  intros Hk. eapply Hf; [|exact Hk]. eapply Hm; eassumption.
Qed.

Lemma keeps_frame {A} (m : M (DebuggedProcess W) A) :
  (∀ s a s', m s = Done a s' → BreakPoints s' = BreakPoints s) → keeps P m.
Proof. intros H s a s' HP Hm. rewrite (H _ _ _ Hm). exact HP. Qed.

Lemma keeps_panic {A} msg : keeps (W:=W) (A:=A) P (panic msg).
Proof. intros s a s' _ H. discriminate. Qed.

Lemma keeps_Registers : keeps P (Registers K).
Proof.
  apply keeps_frame. intros s a s'. rewrite Registers_run.
  destruct (PtraceGetRegs K (tracee s)); intros [= <- <-]; reflexivity.
Qed.

Lemma keeps_CurrentPC : keeps P (CurrentPC K).
Proof.
  apply keeps_frame. intros s a s'. rewrite CurrentPC_run.
  destruct (PtraceGetRegs K (tracee s)); intros [= <- <-]; reflexivity.
Qed.

Lemma keeps_handleResult e : keeps P (handleResult K e).
Proof.
  apply keeps_frame. intros s a s' H.
  destruct (handleResult_frame K e s) as (res & s1 & mid & Hh & Hb & _).
  rewrite Hh in H. injection H as <- <-. exact Hb.
Qed.

Lemma keeps_Break addr : keeps P (Break K img addr).
Proof.
  intros s [x err] s' HP HB. apply Break_cases in HB.
  destruct HB as [(f & l & _ & _ & ->)|(f & l & fn & HL & HB)]; [exact HP|].
  destruct HB as [(n & _ & _ & ->)|[(_ & _ & ->)|(b & Hp & Hb & HB)]];
    [exact HP|exact HP|].
  destruct HB as [(n & w' & _ & _ & -> & _)|(w' & _ & _ & ->)]; [exact HP|].
  cbn. eapply P_insert; eassumption.
Qed.

Lemma keeps_Clear pc : keeps P (Clear K pc).
Proof.
  intros s [x err] s' HP. unfold Clear. go_simpl.
  destruct (BreakPoints s !! pc) as [bp|]; cbn.
  - destruct (PtracePokeData K (Addr bp) (OriginalData bp) (tracee s)) as [[n|] w'];
      cbn; intros [= <- <- <-]; cbn; [exact HP|apply P_delete; exact HP].
  - intros [= <- <- <-]. exact HP.
Qed.

End TableInvariant.

(** * More facts *)

(** ** What the engine keeps of the table, continued *)

Section EngineInvariant.

Context {W : Type} (K : Kernel W) (img : Image).
Implicit Types s : DebuggedProcess W.

Variable P : gmap Z BreakPoint → Prop.
Hypothesis P_delete : ∀ t k, P t → P (delete k t).
Hypothesis P_insert :
  ∀ t addr f l fn b,
    P t → PCToLine img addr = (f, l, Some fn) → b ≠ 0xCC →
    P (<[addr := mkBreakPoint (Name fn) f l addr [b]]> t).

Lemma keeps_gets {A} (f : DebuggedProcess W → A) : keeps P (gets f).
Proof. intros s a s' HP [= <- <-]. exact HP. Qed.

Lemma keeps_set_Regs (f : DebuggedProcess W → PtraceRegs) :
  keeps P (modify (fun s => set_Regs (f s) s)).
Proof. intros s a s' HP [= <- <-]. exact HP. Qed.

Lemma keeps_sys_PtraceSetRegs r : keeps P (sys_PtraceSetRegs K r).
Proof.
  apply keeps_frame. intros s a s'. unfold sys_PtraceSetRegs. go_simpl. cbn.
  destruct (PtraceSetRegs K r (tracee s)). cbn. intros [= <- <-]. reflexivity.
Qed.

Lemma keeps_sys_PtraceSingleStep : keeps P (sys_PtraceSingleStep K).
Proof.
  apply keeps_frame. intros s a s'. unfold sys_PtraceSingleStep. go_simpl. cbn.
  destruct (PtraceSingleStep K (tracee s)). cbn. intros [= <- <-]. reflexivity.
Qed.

Lemma keeps_sys_PtraceCont sig : keeps P (sys_PtraceCont K sig).
Proof.
  apply keeps_frame. intros s a s'. unfold sys_PtraceCont. go_simpl. cbn.
  destruct (PtraceCont K sig (tracee s)). cbn. intros [= <- <-]. reflexivity.
Qed.

Lemma keeps_sys_PtracePeekText a n : keeps P (sys_PtracePeekText K a n).
Proof.
  apply keeps_frame. intros s x s'. unfold sys_PtracePeekText. go_simpl. cbn.
  intros [= <- <-]. reflexivity.
Qed.

Ltac keeps_step :=
  first
    [ apply keeps_ret
    | apply keeps_panic
    | apply keeps_gets
    | apply keeps_set_Regs
    | apply keeps_Registers
    | apply keeps_CurrentPC
    | apply keeps_handleResult
    | apply keeps_sys_PtraceSetRegs
    | apply keeps_sys_PtraceSingleStep
    | apply keeps_sys_PtraceCont
    | apply keeps_sys_PtracePeekText
    | apply keeps_Break; assumption
    | apply keeps_Clear; assumption
    | apply keeps_bind; [|intros ?]
    | match goal with
      | |- keeps _ (match ?x with _ => _ end) => destruct x
      | |- keeps _ (let '(_, _) := ?x in _) => destruct x
      | |- keeps _ (if ?x then _ else _) => destruct x
      end ].

Lemma keeps_Step : keeps P (Step K img).
Proof. unfold Step. repeat keeps_step. Qed.

Lemma keeps_Continue : keeps P (Continue K img).
Proof. unfold Continue. repeat keeps_step; apply keeps_Step. Qed.

Lemma keeps_clearTempBreakpoint pc : keeps P (clearTempBreakpoint K pc).
Proof. unfold clearTempBreakpoint. repeat keeps_step. Qed.

Lemma keeps_ReturnAddressFromOffset o : keeps P (ReturnAddressFromOffset K o).
Proof. unfold ReturnAddressFromOffset. repeat keeps_step. Qed.

Lemma keeps_OutOfFuel {A} : keeps (W:=W) (A:=A) P (fun _ => OutOfFuel).
Proof. intros s a s' _ H. discriminate. Qed.

Lemma keeps_continueToReturnAddress fuel pc fde :
  keeps P (continueToReturnAddress K img fuel pc fde).
Proof.
  revert pc. induction fuel as [|fuel IH]; intros pc; cbn [continueToReturnAddress].
  - destruct (Cover fde pc); [apply keeps_ret|apply keeps_OutOfFuel].
  - destruct (Cover fde pc); [apply keeps_ret|]. cbv zeta.
    repeat first [apply IH | apply keeps_Continue | apply keeps_clearTempBreakpoint
                 | apply keeps_ReturnAddressFromOffset | keeps_step].
Qed.

Lemma keeps_Next_step : keeps P (Next_step K img).
Proof. unfold Next_step. repeat first [apply keeps_Step | keeps_step]. Qed.

Lemma keeps_Next_loop fuel fde l ret_addr : keeps P (Next_loop K img fuel fde l ret_addr).
Proof.
  induction fuel as [|fuel IH]; cbn [Next_loop]; [apply keeps_OutOfFuel|].
  cbv zeta.
  repeat first [apply IH | apply keeps_Next_step | apply keeps_continueToReturnAddress
               | keeps_step].
Qed.

Lemma keeps_Next fuel : keeps P (Next K img fuel).
Proof.
  unfold Next.
  repeat first [apply keeps_Next_loop | apply keeps_ReturnAddressFromOffset | keeps_step].
Qed.

End EngineInvariant.

Section TableTheorems.

Context {W : Type} (K : Kernel W) (img : Image).
Implicit Types s : DebuggedProcess W.

(** X1. Every operation of the engine keeps the table a table of
    records as [Break] makes them: whenever [Break], [Clear], [Step],
    [Continue] or [Next] returns (with or without an error), each record
    is filed under its own address, names the function, file and line
    the symbol table gives for that address, and holds one displaced
    byte that is not 0xCC, provided the table it started from was so. *)
Theorem engine_keeps_Break_records :
  (∀ addr, keeps (map_Forall (Break_record img)) (Break K img addr)) ∧
  (∀ pc, keeps (map_Forall (Break_record img)) (Clear K pc)) ∧
  keeps (map_Forall (Break_record img)) (Step K img) ∧
  keeps (map_Forall (Break_record img)) (Continue K img) ∧
  (∀ fuel, keeps (map_Forall (Break_record img)) (Next K img fuel)).
Proof.
  assert (Hd : ∀ (t : gmap Z BreakPoint) k,
             map_Forall (Break_record img) t → map_Forall (Break_record img) (delete k t)).
  { intros t k Ht. apply map_Forall_delete. exact Ht. }
  assert (Hi : ∀ (t : gmap Z BreakPoint) addr f l fn b,
             map_Forall (Break_record img) t →
             PCToLine img addr = (f, l, Some fn) → b ≠ 0xCC →
             map_Forall (Break_record img)
               (<[addr := mkBreakPoint (Name fn) f l addr [b]]> t)).
  { intros t addr f l fn b Ht HL Hb. apply map_Forall_insert_2; [|exact Ht].
    exists f, l, fn, b. auto. }
  split; [|split; [|split; [|split]]].
  - intros addr. apply keeps_Break. exact Hi.
  - intros pc. apply keeps_Clear. exact Hd.
  - apply keeps_Step; assumption.
  - apply keeps_Continue; assumption.
  - intros fuel. apply keeps_Next; assumption.
Qed.

Lemma Break_record_wf (t : gmap Z BreakPoint) :
  map_Forall (Break_record img) t → table_wf t.
Proof.
  intros Ht k bp Hk. destruct (Ht k bp Hk) as (f & l & fn & b & _ & -> & _). reflexivity.
Qed.

Lemma Break_local addr s x err s' :
  Break K img addr s = Done (x, err) s' →
  (∀ k, k ≠ addr → BreakPoints s' !! k = BreakPoints s !! k) ∧
  (is_Some err → x = None ∧ BreakPoints s' = BreakPoints s) ∧
  (err = None → ∃ bp, x = Some bp ∧ Addr bp = addr ∧ BreakPoints s' !! addr = Some bp).
Proof.
  intros HB. apply Break_cases in HB.
  destruct HB as [(f & l & _ & [= -> ->] & ->)|(f & l & fn & HL & HB)].
  { split; [auto|]. split; [auto|discriminate]. }
  destruct HB as [(n & _ & [= -> ->] & ->)|[(_ & [= -> ->] & ->)|(b & Hp & Hb & HB)]].
  { split; [auto|]. split; [auto|discriminate]. }
  { split; [auto|]. split; [auto|discriminate]. }
  destruct HB as [(n & w' & _ & [= -> ->] & Ht & _)|(w' & _ & [= -> ->] & ->)].
  { rewrite Ht. split; [auto|]. split; [auto|discriminate]. }
  cbn. split; [intros k Hk; apply lookup_insert_ne; congruence|].
  split; [intros [? [=]]|]. intros _. eexists. split; [reflexivity|].
  split; [reflexivity|apply lookup_insert_eq].
Qed.

Lemma Clear_local pc s x err s' :
  Clear K pc s = Done (x, err) s' →
  (∀ k, k ≠ pc → BreakPoints s' !! k = BreakPoints s !! k) ∧
  (is_Some err → x = None ∧ BreakPoints s' = BreakPoints s) ∧
  (err = None → x = BreakPoints s !! pc ∧ is_Some x ∧ BreakPoints s' !! pc = None).
Proof.
  unfold Clear. go_simpl.
  destruct (BreakPoints s !! pc) as [bp|] eqn:Hbp; cbn.
  - destruct (PtracePokeData K (Addr bp) (OriginalData bp) (tracee s)) as [[n|] w'];
      cbn; intros [= <- <- <-]; cbn.
    + split; [auto|]. split; [auto|discriminate].
    + split; [intros k Hk; apply lookup_delete_ne; congruence|].
      split; [intros [? [=]]|]. intros _. split; [reflexivity|].
      split; [eauto|apply lookup_delete_eq].
  - intros [= <- <- <-]. split; [auto|]. split; [auto|discriminate].
Qed.

(** X3. [Break] and [Clear] touch one entry of the table, their own.
    When either returns an error it returns no record and the table is
    as it was; when [Break] returns nil the record it returns is filed
    under the address; when [Clear] returns nil it returns the record
    that was filed under the address, and none is left there. *)
Theorem Break_Clear_local :
  (∀ addr s x err s',
     Break K img addr s = Done (x, err) s' →
     (∀ k, k ≠ addr → BreakPoints s' !! k = BreakPoints s !! k) ∧
     (is_Some err → x = None ∧ BreakPoints s' = BreakPoints s) ∧
     (err = None → ∃ bp, x = Some bp ∧ Addr bp = addr ∧ BreakPoints s' !! addr = Some bp)) ∧
  (∀ pc s x err s',
     Clear K pc s = Done (x, err) s' →
     (∀ k, k ≠ pc → BreakPoints s' !! k = BreakPoints s !! k) ∧
     (is_Some err → x = None ∧ BreakPoints s' = BreakPoints s) ∧
     (err = None → x = BreakPoints s !! pc ∧ is_Some x ∧ BreakPoints s' !! pc = None)).
Proof. split; [apply Break_local|apply Clear_local]. Qed.

(** X2. On a memory that behaves, [Break] and [Clear] keep the trap
    byte under every record: when 0xCC is at the address of each record
    before, it is at the address of each record after, whatever the
    operation returns.  A [Clear] that returns nil on a table of [Break]
    records leaves the displaced byte, which is not 0xCC, at the
    address. *)
Theorem Break_Clear_keep_traps :
  faithful_memory K →
  (∀ addr s r s',
     traps_in_place K s → Break K img addr s = Done r s' → traps_in_place K s') ∧
  (∀ pc s x err s',
     traps_in_place K s → map_Forall (Break_record img) (BreakPoints s) →
     Clear K pc s = Done (x, err) s' →
     traps_in_place K s' ∧
     (err = None →
        ∃ bp b, x = Some bp ∧ OriginalData bp = [b] ∧ b ≠ 0xCC ∧
                peek_byte K pc (tracee s') = inr b)).
Proof.
  intros (Hback & Helse & Hrefused). split.
  - intros addr s r s' HT HB. apply Break_cases in HB.
    destruct HB as [(f & l & _ & _ & ->)|(f & l & fn & HL & HB)]; [exact HT|].
    destruct HB as [(n & _ & _ & ->)|[(_ & _ & ->)|(b & Hp & Hb & HB)]];
      [exact HT|exact HT|].
    destruct HB as [(n & w' & Hpoke & _ & Ht & Hw)|(w' & Hpoke & _ & ->)].
    + intros k bp. rewrite Ht, Hw. intros Hk.
      rewrite (Hrefused _ _ _ _ _ k Hpoke). eapply HT. exact Hk.
    + intros k bp. cbn. destruct (decide (k = addr)) as [->|Hne].
      * intros _. eapply Hback. exact Hpoke.
      * rewrite lookup_insert_ne by congruence. intros Hk.
        rewrite (Helse _ _ _ _ k Hpoke Hne). eapply HT. exact Hk.
  - intros pc s x err s' HT HR. unfold Clear. go_simpl.
    destruct (BreakPoints s !! pc) as [bp|] eqn:Hbp; cbn.
    + destruct (HR pc bp Hbp) as (f & l & fn & b & HL & -> & Hb). cbn.
      destruct (PtracePokeData K pc [b] (tracee s)) as [[n|] w'] eqn:Hpoke;
        cbn; intros [= <- <- <-]; cbn.
      * split; [|discriminate]. intros k bp' Hk. cbn.
        rewrite (Hrefused _ _ _ _ _ k Hpoke). eapply HT. exact Hk.
      * split.
        -- intros k bp'. cbn. destruct (decide (k = pc)) as [->|Hne].
           ++ rewrite lookup_delete_eq. discriminate.
           ++ rewrite lookup_delete_ne by congruence. intros Hk.
              rewrite (Helse _ _ _ _ k Hpoke Hne). eapply HT. exact Hk.
        -- intros _. eexists _, b. split; [reflexivity|]. split; [reflexivity|].
           split; [exact Hb|]. eapply Hback. exact Hpoke.
    + intros [= <- <- <-]. split; [exact HT|discriminate].
Qed.

End TableTheorems.

(** ** The stepping engine, case by case *)

Section SteppingTheorems.

Context {W : Type} (K : Kernel W) (img : Image).
Implicit Types s : DebuggedProcess W.

(** X4. [Step] when the registers cannot be read returns the error of
    [Registers] and sends nothing else.  [Step] with no breakpoint filed
    under PC-1 reads the registers, asks for the single-step and, beyond
    that, only waits and reads registers: it writes neither memory nor
    registers, leaves the table as it is, and returns nil or a
    "step failed: " error. *)
Theorem Step_without_trap s :
  (∀ n, PtraceGetRegs K (tracee s) = inl n →
     Step K img s
     = Done (Some (Errorf_err "Registers():" (SyscallError n))) (record KGetRegs s)) ∧
  (∀ r, PtraceGetRegs K (tracee s) = inr r →
     BreakPoints s !! u64 (Rip r - 1) = None →
     ∃ res s' mid,
       Step K img s = Done res s' ∧
       BreakPoints s' = BreakPoints s ∧
       ktrace s' = ktrace s ++ KGetRegs :: KSingleStep :: mid ∧
       Forall passive mid ∧
       (res = None ∨ ∃ e, res = Some (Errorf_text "step failed: " e))).
Proof.
  split.
  - intros n Hr. unfold Step. go_simpl. cbn. rewrite Hr. reflexivity.
  - intros r Hr Hbp. unfold Step. go_simpl. cbn. rewrite Hr. cbn.
    unfold PC. rewrite Hbp. cbn.
    destruct (PtraceSingleStep K (tracee s)) as [e w3]. cbn.
    match goal with |- context [handleResult K e ?st] =>
      destruct (handleResult_frame K e st) as (res & s4 & mid & Hh & Hbps & Hlog & Hmid & _);
      rewrite Hh end.
    cbn in Hbps, Hlog.
    destruct res as [e0|].
    + eexists _, _, mid. split; [reflexivity|]. split; [exact Hbps|].
      split; [rewrite Hlog, <- !app_assoc; reflexivity|]. split; [exact Hmid|eauto].
    + eexists _, _, mid. split; [reflexivity|]. split; [exact Hbps|].
      split; [rewrite Hlog, <- !app_assoc; reflexivity|]. split; [exact Hmid|eauto].
Qed.

(** X5. [Step] parked on a breakpoint, when the kernel refuses a write
    before the single-step.  Refused restoring write: [Step] returns
    that error, the table still holds the breakpoint, nothing else was
    sent.  Refused register write: [Step] returns that error with the
    breakpoint already cleared; the tracee was not resumed and the
    breakpoint is not installed again, the table has lost it. *)
Theorem Step_refused_before_resume s r bp :
  table_wf (BreakPoints s) →
  PtraceGetRegs K (tracee s) = inr r →
  BreakPoints s !! u64 (Rip r - 1) = Some bp →
  (∀ e w1,
     PtracePokeData K (Addr bp) (OriginalData bp) (tracee s) = (Some e, w1) →
     Step K img s
     = Done (Some (SyscallError e))
         (mkDbp r (ProcessState s) (BreakPoints s) w1 (stdout s)
            (ktrace s ++ [KGetRegs; KPokeData (Addr bp) (OriginalData bp)]))) ∧
  (∀ w1 e w2,
     PtracePokeData K (Addr bp) (OriginalData bp) (tracee s) = (None, w1) →
     PtraceSetRegs K (SetPC r (Addr bp)) w1 = (Some e, w2) →
     Step K img s
     = Done (Some (SyscallError e))
         (mkDbp (SetPC r (Addr bp)) (ProcessState s) (delete (Addr bp) (BreakPoints s))
            w2 (stdout s)
            (ktrace s ++ [KGetRegs; KPokeData (Addr bp) (OriginalData bp);
                          KSetRegs (SetPC r (Addr bp))]))).
Proof.
  intros Hwf Hr Hbp.
  assert (Hk : Addr bp = u64 (Rip r - 1)) by (apply Hwf; assumption).
  split.
  - intros e w1 Hpoke. unfold Step, Clear. go_simpl. cbn.
    rewrite Hr. cbn. unfold PC. rewrite Hbp. cbn.
    rewrite Hk, Hbp. cbn. rewrite <- Hk. rewrite Hpoke. cbn.
    unfold set_tracee, record, set_Regs. cbn. rewrite <- !app_assoc. reflexivity.
  - intros w1 e w2 Hpoke Hset. unfold Step, Clear. go_simpl. cbn.
    rewrite Hr. cbn. unfold PC. rewrite Hbp. cbn.
    rewrite Hk, Hbp. cbn. rewrite <- Hk. rewrite Hpoke. cbn. rewrite Hset. cbn.
    unfold set_tracee, record, set_Regs. cbn. rewrite <- !app_assoc. reflexivity.
Qed.

Lemma Continue_ok_addresses s s' :
  Continue K img s = Done None s' → dom (BreakPoints s') = dom (BreakPoints s).
Proof.
  unfold Continue. unfold mbind at 1, M_bind at 1.
  destruct (Step K img s) as [[e|] s1| |] eqn:HS; try discriminate.
  apply Step_ok_addresses in HS. rewrite <- HS.
  go_simpl. cbn. destruct (PtraceCont K 0 (tracee s1)) as [e w']. cbn.
  match goal with |- context [handleResult K e ?st] =>
    destruct (handleResult_frame K e st) as (res & s2 & mid & Hh & Hbps & _);
    rewrite Hh end.
  intros [= -> ->]. rewrite Hbps. reflexivity.
Qed.

(** X6. A [Step] or a [Continue] that returns nil leaves the same set of
    addresses in the table as it found. *)
Theorem resume_ok_addresses s s' :
  (Step K img s = Done None s' → dom (BreakPoints s') = dom (BreakPoints s)) ∧
  (Continue K img s = Done None s' → dom (BreakPoints s') = dom (BreakPoints s)).
Proof. split; [apply Step_ok_addresses|apply Continue_ok_addresses]. Qed.

(** X7. [handleResult] after a request the kernel accepted.  A wait
    that fails with ECHILD counts as success and leaves the recorded
    status alone; a wait that fails otherwise returns that error.  A
    status is recorded; when the tracee exited, or stopped on SIGTRAP,
    nothing more happens; a tracee that did neither has its registers
    read and one line printed with the stop signal and the PC. *)
Theorem handleResult_wait s :
  (∀ w', Wait4 K (tracee s) = (inl ECHILD, w') →
     handleResult K None s = Done None (set_tracee w' (record KWait s))) ∧
  (∀ n w', Wait4 K (tracee s) = (inl n, w') → n ≠ ECHILD →
     handleResult K None s
     = Done (Some (SyscallError n)) (set_tracee w' (record KWait s))) ∧
  (∀ ps w', Wait4 K (tracee s) = (inr ps, w') →
     (Exited ps = true ∨ TrapCause ps ≠ -1) →
     handleResult K None s
     = Done None (set_ProcessState (Some ps) (set_tracee w' (record KWait s)))) ∧
  (∀ ps w' r, Wait4 K (tracee s) = (inr ps, w') →
     Exited ps = false → TrapCause ps = -1 →
     PtraceGetRegs K w' = inr r →
     handleResult K None s
     = Done None
         (print (StopSignal ps, Rip r)
            (set_Regs r (record KGetRegs
               (set_ProcessState (Some ps) (set_tracee w' (record KWait s))))))).
Proof.
  split; [|split; [|split]].
  - intros w' HW. unfold handleResult. go_simpl. cbn. rewrite HW. reflexivity.
  - intros n w' HW Hn. unfold handleResult. go_simpl. cbn. rewrite HW. cbn.
    rewrite bool_decide_eq_false_2 by exact Hn. reflexivity.
  - intros ps w' HW Hps. unfold handleResult. go_simpl. cbn. rewrite HW. cbn.
    destruct (decide (TrapCause ps = -1 ∧ Exited ps = false)) as [[H1 H2]|_];
      [|reflexivity].
    destruct Hps as [Hps|Hps]; [congruence|contradiction].
  - intros ps w' r HW He Ht Hr. unfold handleResult. go_simpl. cbn. rewrite HW. cbn.
    destruct (decide (TrapCause ps = -1 ∧ Exited ps = false)) as [_|Hn].
    + cbn. rewrite Hr. reflexivity.
    + exfalso. apply Hn. auto.
Qed.

(** X8. [clearTempBreakpoint(pc)] with no record for [pc] does nothing and
    returns nil.  With a record filed under [pc], readable registers and
    the restoring write accepted, it removes the record and asks the
    kernel to set the PC to [pc], wherever the tracee had stopped, and
    returns what that request returns. *)
Theorem clearTempBreakpoint_spec pc s :
  (BreakPoints s !! pc = None → clearTempBreakpoint K pc s = Done None s) ∧
  (∀ bp r w1 e w2,
     BreakPoints s !! pc = Some bp → Addr bp = pc →
     PtraceGetRegs K (tracee s) = inr r →
     PtracePokeData K pc (OriginalData bp) (tracee s) = (None, w1) →
     PtraceSetRegs K (SetPC r pc) w1 = (e, w2) →
     clearTempBreakpoint K pc s
     = Done (SyscallError <$> e)
         (mkDbp (SetPC r pc) (ProcessState s) (delete pc (BreakPoints s)) w2 (stdout s)
            (ktrace s ++ [KGetRegs; KPokeData pc (OriginalData bp); KSetRegs (SetPC r pc)]))).
Proof.
  split.
  - intros H. unfold clearTempBreakpoint. go_simpl. rewrite H. reflexivity.
  - intros bp r w1 e w2 Hbp Hk Hr Hpoke Hset.
    unfold clearTempBreakpoint, Clear. go_simpl. cbn. rewrite Hbp. cbn.
    rewrite Hr. cbn. rewrite Hk, Hbp. cbn. rewrite Hk, Hpoke. cbn.
    rewrite Hk, Hset. cbn.
    unfold set_tracee, record, set_Regs. cbn. rewrite <- !app_assoc. reflexivity.
Qed.

Lemma clearTempBreakpoint_ok pc s s' :
  table_wf (BreakPoints s) →
  clearTempBreakpoint K pc s = Done None s' →
  BreakPoints s' = delete pc (BreakPoints s).
Proof.
  intros Hwf. unfold clearTempBreakpoint, Clear. go_simpl. cbn.
  destruct (BreakPoints s !! pc) as [bp|] eqn:Hbp; cbn.
  - assert (Hk : Addr bp = pc) by (apply Hwf; assumption).
    destruct (PtraceGetRegs K (tracee s)) as [n|r]; cbn; [discriminate|].
    rewrite Hk, Hbp. cbn.
    destruct (PtracePokeData K (Addr bp) (OriginalData bp) (tracee s)) as [[n|] w1];
      cbn; [discriminate|].
    destruct (PtraceSetRegs K _ w1) as [[n|] w2]; cbn; [discriminate|].
    intros [= <-]. reflexivity.
  - intros [= <-]. symmetry. apply delete_id. exact Hbp.
Qed.

End SteppingTheorems.

#[local] Arguments peek_bytes : simpl never.

Section ReturnAddress.

Context {W : Type} (K : Kernel W) (img : Image).
Implicit Types s : DebuggedProcess W.

Lemma table_wf_delete (t : gmap Z BreakPoint) k : table_wf t → table_wf (delete k t).
Proof.
  intros Ht k' bp H. destruct (decide (k = k')) as [<-|Hne].
  - rewrite lookup_delete_eq in H. discriminate.
  - rewrite lookup_delete_ne in H by assumption. eapply Ht. exact H.
Qed.

Lemma table_wf_Break_insert (t : gmap Z BreakPoint) addr f l (fn : Func) (b : Z) :
  table_wf t → PCToLine img addr = (f, l, Some fn) → b ≠ 0xCC →
  table_wf (<[addr := mkBreakPoint (Name fn) f l addr [b]]> t).
Proof.
  intros Ht _ _ k bp H. destruct (decide (addr = k)) as [<-|Hne].
  - rewrite lookup_insert_eq in H. injection H as <-. reflexivity.
  - rewrite lookup_insert_ne in H by assumption. eapply Ht. exact H.
Qed.


(** X10. When [continueToReturnAddress] returns nil, from a table whose
    records are filed under their own addresses: the table is again
    such a table, it holds no address it did not hold at entry (every
    temporary breakpoint placed has been removed), and either [fde]
    covered [pc] from the start and nothing was done, or [fde] covers
    the PC read last (0 when the registers could not be read). *)
Theorem continueToReturnAddress_ok fuel pc fde s s' :
  table_wf (BreakPoints s) →
  continueToReturnAddress K img fuel pc fde s = Done None s' →
  table_wf (BreakPoints s') ∧
  dom (BreakPoints s') ⊆ dom (BreakPoints s) ∧
  (Cover fde pc = true ∧ s' = s ∨
   Cover fde match PtraceGetRegs K (tracee s') with
             | inr r => Rip r
             | inl _ => 0
             end = true).
Proof.
  revert pc s. induction fuel as [|fuel IH]; intros pc s Hwf;
    cbn [continueToReturnAddress].
  - destruct (Cover fde pc); [|discriminate]. intros [= <-]. auto.
  - destruct (Cover fde pc) eqn:Hc; [intros [= <-]; auto|]. cbv zeta.
    unfold mbind at 1, M_bind at 1.
    destruct (ReturnAddressFromOffset K 0 s) as [addr s1| |] eqn:HR; try discriminate.
    assert (Hb1 : BreakPoints s1 = BreakPoints s).
    { revert HR. unfold ReturnAddressFromOffset. go_simpl. cbn.
      destruct (PtraceGetRegs K (tracee s)); cbn; [discriminate|].
      intros [= <- <-]. reflexivity. }
    unfold mbind at 1, M_bind at 1.
    destruct (Break K img addr s1) as [[bp err] s2| |] eqn:HB; try discriminate.
    destruct (Break_local K img addr s1 bp err s2 HB) as (_ & Herr & Hok).
    assert (Hwf2 : table_wf (BreakPoints s2)).
    { eapply (keeps_Break K img table_wf); [|rewrite Hb1; exact Hwf|exact HB].
      intros; eapply table_wf_Break_insert; eassumption. }
    set (proceed := (Continue K img ≫= _)).
    assert (Hproceed :
      proceed s2 = Done None s' →
      table_wf (BreakPoints s') ∧
      dom (BreakPoints s') ⊆ dom (BreakPoints s2) ∖ {[addr]} ∪ dom (BreakPoints s) ∧
      Cover fde match PtraceGetRegs K (tracee s') with
                | inr r => Rip r
                | inl _ => 0
                end = true).
    { unfold proceed. unfold mbind at 1, M_bind at 1.
      destruct (Continue K img s2) as [[e|] s3| |] eqn:HC; try discriminate.
      assert (Hwf3 : table_wf (BreakPoints s3)).
      { eapply (keeps_Continue K img table_wf); [| |exact Hwf2|exact HC].
        - apply table_wf_delete.
        - intros; eapply table_wf_Break_insert; eassumption. }
      apply Continue_ok_addresses in HC.
      destruct bp as [bp|]; [|discriminate].
      unfold mbind at 1, M_bind at 1.
      destruct (clearTempBreakpoint K (Addr bp) s3) as [[e|] s4| |] eqn:HT;
        try discriminate.
      apply clearTempBreakpoint_ok in HT; [|exact Hwf3].
      assert (Hwf4 : table_wf (BreakPoints s4)).
      { rewrite HT. apply table_wf_delete. exact Hwf3. }
      unfold mbind at 1, M_bind at 1. rewrite CurrentPC_run.
      assert (Haddr : err = None → Addr bp = addr).
      { intros He. destruct (Hok He) as (bp' & [= <-] & Ha & _). exact Ha. }
      destruct (PtraceGetRegs K (tracee s4)) as [n|r] eqn:Hr4.
      - intros Hrec.
        destruct (IH 0 (record KGetRegs s4) Hwf4 Hrec) as (Hw & Hd & Hcov).
        split; [exact Hw|]. split.
        + etransitivity; [exact Hd|]. cbn. rewrite HT, dom_delete_L, HC.
          destruct err as [e|].
          * destruct (Herr (ex_intro _ e eq_refl)) as [[=] _].
          * rewrite (Haddr eq_refl). apply union_subseteq_l.
        + destruct Hcov as [[Hc0 ->]|Hcov]; [|exact Hcov].
          cbn. rewrite Hr4. exact Hc0.
      - intros Hrec.
        destruct (IH (Rip r) (set_Regs r (record KGetRegs s4)) Hwf4 Hrec)
          as (Hw & Hd & Hcov).
        split; [exact Hw|]. split.
        + etransitivity; [exact Hd|]. cbn. rewrite HT, dom_delete_L, HC.
          destruct err as [e|].
          * destruct (Herr (ex_intro _ e eq_refl)) as [[=] _].
          * rewrite (Haddr eq_refl). apply union_subseteq_l.
        + destruct Hcov as [[Hc0 ->]|Hcov]; [|exact Hcov].
          cbn. rewrite Hr4. exact Hc0. }
    destruct err as [e|].
    + destruct (is_BreakPointExistsError e); [|discriminate].
      intros Hp. destruct (Hproceed Hp) as (Hw & Hd & Hcov).
      split; [exact Hw|]. split; [|right; exact Hcov].
      destruct (Herr (ex_intro _ e eq_refl)) as [_ Hsame].
      rewrite Hsame, Hb1 in Hd. intros k Hk. apply Hd in Hk.
      apply elem_of_union in Hk as [Hk|Hk]; [|exact Hk].
      apply elem_of_difference in Hk as [Hk _]. exact Hk.
    + intros Hp. destruct (Hproceed Hp) as (Hw & Hd & Hcov).
      split; [exact Hw|]. split; [|right; exact Hcov].
      destruct (Hok eq_refl) as (bp' & -> & Ha & Hl).
      assert (Hd2 : ∀ k, k ∈ dom (BreakPoints s2) → k ≠ addr → k ∈ dom (BreakPoints s)).
      { intros k Hk Hne. apply elem_of_dom in Hk.
        rewrite (proj1 (Break_local K img addr s1 _ _ s2 HB) k Hne) in Hk.
        rewrite Hb1 in Hk. apply elem_of_dom. exact Hk. }
      intros k Hk. apply Hd in Hk.
      apply elem_of_union in Hk as [Hk|Hk]; [|exact Hk].
      apply elem_of_difference in Hk as [Hk Hne]. apply Hd2; [exact Hk|].
      intros ->. apply Hne. apply elem_of_singleton. reflexivity.
Qed.

End ReturnAddress.

(** ** The readers *)

Section MoreDecoding.

Lemma IndexByte_first (pre post : list Z) (c : Z) :
  Forall (λ b, b ≠ c) pre → IndexByte (pre ++ c :: post) c = Z.of_nat (length pre).
Proof.
  induction 1 as [|b pre Hb _ IH]; cbn [app IndexByte length].
  - destruct (decide (c = c)); [reflexivity|contradiction].
  - destruct (decide (b = c)); [contradiction|]. rewrite IH.
    destruct (decide (Z.of_nat (length pre) = -1)); lia.
Qed.

Lemma read_uint64s_count (n : nat) (buf : list Z) :
  (8 * n ≤ length buf < 8 * n + 8)%nat → length (read_uint64s buf) = n.
Proof.
  revert buf. induction n as [|n IH]; intros buf Hlen.
  - do 8 (destruct buf as [|? buf]; [reflexivity|]). cbn in Hlen. lia.
  - do 8 (destruct buf as [|? buf]; [cbn in Hlen; lia|]).
    cbn [read_uint64s length]. f_equal. apply IH. cbn in Hlen. lia.
Qed.

End MoreDecoding.

Section Readers.

Context {W : Type} (K : Kernel W) (img : Image).
Implicit Types s : DebuggedProcess W.

(** X13. [readString], when the sixteen bytes at the string's data
    pointer hold a 0x00: the value is the bytes before the first 0x00,
    fewer than sixteen.  Two reads are made, eight bytes at [addr] and
    sixteen at the pointer: the length word of the string header is
    never read. *)
Theorem readString_truncates_at_NUL addr s ptr pre post :
  16 ≤ maxAlloc img →
  peek_bytes K addr 8 (tracee s) = inr ptr →
  peek_bytes K (Uint64 ptr) 16 (tracee s) = inr (pre ++ 0 :: post) →
  Forall (λ b, b ≠ 0) pre →
  readString K img addr s
  = Done (string_of_bytes pre, None)
         (record (KPeekData (Uint64 ptr) 16) (record (KPeekData addr 8) s)) ∧
  (length pre < 16)%nat.
Proof.
  intros Hmax Hptr Hval Hnz.
  assert (Hlen : length (pre ++ 0 :: post) = 16%nat)
    by (eapply peek_bytes_length; eassumption).
  rewrite length_app in Hlen. cbn in Hlen.
  split; [|lia].
  unfold readString. unfold mbind at 1, M_bind at 1.
  rewrite readMemory_run by lia. change (Z.to_nat 8) with 8%nat. rewrite Hptr.
  unfold mbind at 1, M_bind at 1.
  rewrite readMemory_run by lia. change (Z.to_nat 16) with 16%nat. cbn [tracee record].
  rewrite Hval. rewrite IndexByte_first by exact Hnz.
  destruct (decide _) as [Hbad|_].
  { exfalso. rewrite length_app in Hbad. cbn in Hbad. lia. }
  rewrite Nat2Z.id. rewrite take_app_length. reflexivity.
Qed.

(** X14. [readIntArray] panics on a negative [ByteSize].  For a
    [ByteSize] from 0 up to an eighth of the allocation limit, when the
    [ByteSize] bytes can be read, it renders "[N]int [v1 v2 ...]" with
    N = ByteSize / 8 and exactly N elements: bytes beyond the last full
    group of eight are dropped. *)
Theorem readIntArray_count addr ByteSize s :
  maxAlloc img < 2 ^ 64 →
  (ByteSize < 0 → readIntArray K img addr ByteSize s = Panic makeslice_cap_out_of_range) ∧
  (∀ data,
     0 ≤ ByteSize → 8 * ByteSize ≤ maxAlloc img →
     peek_bytes K addr (Z.to_nat ByteSize) (tracee s) = inr data →
     readIntArray K img addr ByteSize s
     = Done ("[" ++ fmt_d (ByteSize / 8) ++ "]int " ++ fmt_d_slice (read_uint64s data),
             None)%string
            (record (KPeekData addr (Z.to_nat ByteSize)) s) ∧
     length (read_uint64s data) = Z.to_nat (ByteSize / 8)).
Proof.
  intros Hlim. split.
  - intros Hneg. unfold readIntArray.
    destruct (decide _) as [_|Hn]; [reflexivity|]. exfalso. apply Hn. left. exact Hneg.
  - intros data H0 Hsz Hdata.
    assert (Hu : u64 ByteSize = ByteSize).
    { unfold u64. apply Z.mod_small. lia. }
    split.
    + unfold readIntArray. destruct (decide _) as [Hbad|_]; [lia|].
      unfold mbind at 1, M_bind at 1. rewrite Hu.
      rewrite readMemory_run by lia. rewrite Hdata.
      rewrite Z.quot_div_nonneg by lia. reflexivity.
    + apply read_uint64s_count.
      rewrite (peek_bytes_length K _ _ _ _ Hdata).
      assert (Hd := Z.div_mod ByteSize 8 ltac:(lia)).
      assert (Hm := Z.mod_pos_bound ByteSize 8 ltac:(lia)).
      assert (0 ≤ ByteSize / 8) by (apply Z.div_pos; lia).
      lia.
Qed.

End Readers.

Section Evaluator.

Context {W : Type} (K : Kernel W) (img : Image).
Implicit Types s : DebuggedProcess W.

Ltac enter_extractValue Hr Hfde :=
  cbn [extractValue]; unfold mbind at 1, M_bind at 1;
  rewrite Registers_run; cbn [tracee record set_Regs set_tracee]; rewrite Hr;
  unfold mbind at 1, M_bind at 1, gets at 1; cbn [Regs set_Regs];
  unfold PC; rewrite Hfde.

(** X15. [extractValue] fails before it reads any memory, whatever the
    type: with the error of [Registers] when the registers cannot be
    read, with the frame oracle's error when no frame entry covers the
    PC, and, for [off = 0], with the evaluator's error when the
    location expression cannot be run. *)
Theorem extractValue_fails_early typ instructions off s :
  (∀ n, PtraceGetRegs K (tracee s) = inl n →
     extractValue K img typ instructions off s
     = Done ("", Some (Errorf_err "Registers():" (SyscallError n))) (record KGetRegs s)) ∧
  (∀ r e, PtraceGetRegs K (tracee s) = inr r → FDEForPC img (Rip r) = inl e →
     extractValue K img typ instructions off s
     = Done ("", Some e) (set_Regs r (record KGetRegs s))) ∧
  (∀ r fde e, PtraceGetRegs K (tracee s) = inr r → FDEForPC img (Rip r) = inr fde →
     off = 0 →
     ExecuteStackProgram img (CFAOffset fde (Rip r)) instructions = inl e →
     extractValue K img typ instructions off s
     = Done ("", Some e) (set_Regs r (record KGetRegs s))).
Proof.
  split; [|split].
  - intros n Hr. destruct typ; cbn [extractValue]; unfold mbind at 1, M_bind at 1;
      rewrite Registers_run, Hr; reflexivity.
  - intros r e Hr Hfde. destruct typ; enter_extractValue Hr Hfde; reflexivity.
  - intros r fde e Hr Hfde -> Hprog.
    destruct typ; enter_extractValue Hr Hfde;
      (destruct (decide (0 = 0)) as [_|?]; [|contradiction]); rewrite Hprog; reflexivity.
Qed.

(** X16. A typedef is transparent: a typedef of a type that is not itself
    a typedef evaluates as that type does. *)
Theorem extractValue_typedef name t instructions off s :
  (∀ n u, t ≠ TypedefType n u) →
  extractValue K img (TypedefType name t) instructions off s
  = extractValue K img t instructions off s.
Proof.
  intros Ht. destruct t; try reflexivity. exfalso. eapply Ht. reflexivity.
Qed.

(** X17. A type [extractValue] has no case for fails with "could not find
    value for type", once registers, frame and location are had, and no
    memory is read.  A typedef of a typedef is such a type: only one
    level is unwrapped, and the error names the inner typedef. *)
Theorem extractValue_unsupported instructions off s r fde :
  PtraceGetRegs K (tracee s) = inr r →
  FDEForPC img (Rip r) = inr fde →
  (off = 0 → ∃ o, ExecuteStackProgram img (CFAOffset fde (Rip r)) instructions = inr o) →
  (∀ n, extractValue K img (OtherType n) instructions off s
        = Done ("", Some (Errorf_type "could not find value for type %s" (OtherType n)))
               (set_Regs r (record KGetRegs s))) ∧
  (∀ n n' u, extractValue K img (TypedefType n (TypedefType n' u)) instructions off s
        = Done ("", Some (Errorf_type "could not find value for type %s"
                            (TypedefType n' u)))
               (set_Regs r (record KGetRegs s))).
Proof.
  intros Hr Hfde Hprog. split.
  - intros n. enter_extractValue Hr Hfde.
    destruct (decide (off = 0)) as [H0|_]; [|reflexivity].
    destruct (Hprog H0) as [o ->]. reflexivity.
  - intros n n' u. enter_extractValue Hr Hfde.
    destruct (decide (off = 0)) as [H0|_]; [|reflexivity].
    destruct (Hprog H0) as [o ->]. reflexivity.
Qed.

(** X18. A pointer to an integer that is not nil: the eight bytes at the
    variable's address are the pointer, the eight bytes at the address
    it holds are the integer, and the value is "*" followed by the
    integer as a signed decimal.  The registers are read once for the
    pointer and once more for the integer; the location expression is
    run once. *)
Theorem extractValue_pointer_to_int n instructions s r fde o ptr word :
  let base := u64 (i64 (i64 (Rsp r) + o)) in
  let target := u64 (i64 (Uint64 ptr)) in
  8 ≤ maxAlloc img →
  PtraceGetRegs K (tracee s) = inr r →
  FDEForPC img (Rip r) = inr fde →
  ExecuteStackProgram img (CFAOffset fde (Rip r)) instructions = inr o →
  peek_bytes K base 8 (tracee s) = inr ptr →
  i64 (Uint64 ptr) ≠ 0 →
  peek_bytes K target 8 (tracee s) = inr word →
  extractValue K img (PtrType (IntType n)) instructions 0 s
  = Done ("*" ++ fmt_d (i64 (Uint64 word)), None)%string
         (mkDbp r (ProcessState s) (BreakPoints s) (tracee s) (stdout s)
            (ktrace s ++ [KGetRegs; KPeekData base 8; KGetRegs; KPeekData target 8])).
Proof.
  intros base target Hmax Hr Hfde Hprog Hptr Hnz Hword.
  enter_extractValue Hr Hfde.
  destruct (decide (0 = 0)) as [_|?]; [|contradiction].
  rewrite Hprog. fold base.
  unfold mbind at 1, M_bind at 1. rewrite readMemory_run by lia.
  change (Z.to_nat 8) with 8%nat. cbn [tracee set_Regs record]. rewrite Hptr.
  unfold mbind at 1, M_bind at 1.
  enter_extractValue Hr Hfde.
  destruct (decide (i64 (Uint64 ptr) = 0)) as [?|_]; [contradiction|].
  fold target. unfold readInt. unfold mbind at 1, M_bind at 1.
  rewrite readMemory_run by lia. change (Z.to_nat 8) with 8%nat.
  cbn [tracee set_Regs record]. rewrite Hword.
  unfold record, set_Regs, ret, mret, M_ret. cbn. rewrite <- !app_assoc. reflexivity.
Qed.

(** X19. A nil pointer is not read through at address 0: offset 0 stands
    for "not located yet", so the pointee is located by running the
    empty location expression.  When that fails the evaluation fails
    with its error; when it yields [o'], the integer rendered is the
    one at [rsp + o']. *)
Theorem extractValue_nil_pointer n instructions s r fde o ptr o' word :
  let base := u64 (i64 (i64 (Rsp r) + o)) in
  let frame := u64 (i64 (i64 (Rsp r) + o')) in
  8 ≤ maxAlloc img →
  PtraceGetRegs K (tracee s) = inr r →
  FDEForPC img (Rip r) = inr fde →
  ExecuteStackProgram img (CFAOffset fde (Rip r)) instructions = inr o →
  peek_bytes K base 8 (tracee s) = inr ptr →
  Uint64 ptr = 0 →
  (∀ e, ExecuteStackProgram img (CFAOffset fde (Rip r)) [] = inl e →
     extractValue K img (PtrType (IntType n)) instructions 0 s
     = Done ("", Some e)
         (mkDbp r (ProcessState s) (BreakPoints s) (tracee s) (stdout s)
            (ktrace s ++ [KGetRegs; KPeekData base 8; KGetRegs]))) ∧
  (ExecuteStackProgram img (CFAOffset fde (Rip r)) [] = inr o' →
   peek_bytes K frame 8 (tracee s) = inr word →
   extractValue K img (PtrType (IntType n)) instructions 0 s
   = Done ("*" ++ fmt_d (i64 (Uint64 word)), None)%string
       (mkDbp r (ProcessState s) (BreakPoints s) (tracee s) (stdout s)
          (ktrace s ++ [KGetRegs; KPeekData base 8; KGetRegs; KPeekData frame 8]))).
Proof.
  intros base frame Hmax Hr Hfde Hprog Hptr Hnil.
  assert (Hpre :
    extractValue K img (PtrType (IntType n)) instructions 0 s
    = ('(val, err) ← extractValue K img (IntType n) [] 0;
       match err with
       | Some e => ret ("", Some e)
       | None => ret ("*" ++ val, None)%string
       end) (record (KPeekData base 8) (set_Regs r (record KGetRegs s)))).
  { enter_extractValue Hr Hfde.
    destruct (decide (0 = 0)) as [_|?]; [|contradiction].
    rewrite Hprog. fold base.
    unfold mbind at 1, M_bind at 1. rewrite readMemory_run by lia.
    change (Z.to_nat 8) with 8%nat. cbn [tracee set_Regs record]. rewrite Hptr.
    rewrite Hnil. change (i64 0) with 0. reflexivity. }
  rewrite Hpre. clear Hpre. split.
  - intros e Hprog'. unfold mbind at 1, M_bind at 1.
    enter_extractValue Hr Hfde.
    destruct (decide (0 = 0)) as [_|?]; [|contradiction].
    rewrite Hprog'. unfold record, set_Regs, ret, mret, M_ret. cbn.
    rewrite <- !app_assoc. reflexivity.
  - intros Hprog' Hword. unfold mbind at 1, M_bind at 1.
    enter_extractValue Hr Hfde.
    destruct (decide (0 = 0)) as [_|?]; [|contradiction].
    rewrite Hprog'. fold frame. unfold readInt. unfold mbind at 1, M_bind at 1.
    rewrite readMemory_run by lia. change (Z.to_nat 8) with 8%nat.
    cbn [tracee set_Regs record]. rewrite Hword.
    unfold record, set_Regs, ret, mret, M_ret. cbn. rewrite <- !app_assoc. reflexivity.
Qed.


(** X20. A struct that is neither [string] nor [[]int], all of whose
    fields are integers that can be read (none at address 0): the value
    is "Name {f1: v1, f2: v2, ...}", the fields in their order, each at
    the struct's address plus its byte offset; "Name {}" for no field.
    The tracee and the table are left as they were. *)
Theorem extractValue_struct_of_ints StructName Field values instructions s r fde o :
  let offset := i64 (i64 (Rsp r) + o) in
  8 ≤ maxAlloc img →
  StructName ≠ "string" → StructName ≠ "[]int" →
  PtraceGetRegs K (tracee s) = inr r →
  FDEForPC img (Rip r) = inr fde →
  ExecuteStackProgram img (CFAOffset fde (Rip r)) instructions = inr o →
  Forall2 (int_field K (tracee s) offset) Field values →
  ∃ s',
    extractValue K img (StructType StructName Field) instructions 0 s
    = Done ((StructName ++ " {"
             ++ String.concat ", "
                  (zip_with (λ f v, field_name f ++ ": " ++ v) Field values)
             ++ "}")%string, None) s' ∧
    tracee s' = tracee s ∧ BreakPoints s' = BreakPoints s.
Proof.
  intros offset Hmax Hn1 Hn2 Hr Hfde Hprog Hfields.
  enter_extractValue Hr Hfde.
  destruct (decide (0 = 0)) as [_|?]; [|contradiction].
  rewrite Hprog. fold offset.
  destruct (decide (StructName = "string")) as [?|_]; [contradiction|].
  destruct (decide (StructName = "[]int")) as [?|_]; [contradiction|].
  match goal with |- ∃ s', ?f Field [] ?st = _ ∧ _ => set (loop := f); set (s1 := st) end.
  assert (Hs1 : tracee s1 = tracee s ∧ BreakPoints s1 = BreakPoints s) by auto.
  change (zip_with (λ f v, field_name f ++ ": " ++ v)%string Field values)
    with ([] ++ zip_with (λ f v, field_name f ++ ": " ++ v)%string Field values).
  generalize (@nil string) as acc. revert Hs1. generalize s1 as st. clear s1.
  induction Hfields as [|fld v Field values (name & off & tname & -> & Hnz & Hv) _ IH];
    intros st [Ht Hb] acc.
  - exists st. cbn. rewrite app_nil_r. auto.
  - unfold loop at 1. cbn [zip_with field_name]. fold loop.
    unfold mbind at 1, M_bind at 1.
    cbn [extractValue]. unfold mbind at 1, M_bind at 1.
    rewrite Registers_run, Ht, Hr.
    unfold mbind at 1, M_bind at 1, gets at 1. cbn [Regs set_Regs].
    unfold PC. rewrite Hfde.
    destruct (decide (i64 (off + offset) = 0)) as [?|_]; [contradiction|].
    unfold readInt. unfold mbind at 1, M_bind at 1.
    rewrite readMemory_run by lia. change (Z.to_nat 8) with 8%nat.
    cbn [tracee set_Regs record]. rewrite Ht.
    unfold int_at in Hv.
    destruct (peek_bytes K (u64 (i64 (off + offset))) 8 (tracee s)) as [?|bs];
      [discriminate|]. injection Hv as <-.
    cbv beta iota delta [ret mret M_ret].
    match goal with |- ∃ s', loop Field ?acc' ?st' = _ ∧ _ =>
      destruct (IH st' (conj Ht Hb) acc') as (s' & Hrun & Hts & Hbs) end.
    exists s'. rewrite Hrun. rewrite <- app_assoc. auto.
Qed.

End Evaluator.

(** ** Symbols and commands *)

Section SymbolTheorems.

Context {W : Type} (K : Kernel W) (img : Image).
Implicit Types s : DebuggedProcess W.

Lemma EvalSymbol_entries_skip data name pre rest s :
  Forall (passed_over data name) pre →
  EvalSymbol_entries K img data (pre ++ rest) name s
  = EvalSymbol_entries K img data rest name s.
Proof.
  induction 1 as [|[entry err] pre (Herr & Hskip) _ IH]; [reflexivity|].
  cbn in Herr, Hskip. subst err. cbn [app EvalSymbol_entries].
  destruct (is_variable_tag (Tag entry)) eqn:Htag; cbn [negb]; [|exact IH].
  destruct (AttrName entry) as [n|] eqn:Hname; [|exact IH].
  destruct (bool_decide (n = name)) eqn:Hn; cbn [negb]; [|exact IH].
  apply bool_decide_eq_true_1 in Hn. subst n.
  destruct (AttrType entry) as [offset|] eqn:Htype; [|exact IH].
  destruct Hskip as [H|[H|[H|(off' & t & Ho & Ht & Hl)]]];
    [discriminate|contradiction|discriminate|].
  injection Ho as <-. rewrite Ht, Hl. exact IH.
Qed.

(** X21. [EvalSymbol] returns the error of [DWARF()] when there is one.
    When every entry the reader yields is walked past, it returns
    "could not find symbol value for" the name, and the state is
    untouched: no request went to the kernel. *)
Theorem EvalSymbol_not_found dwarf name s :
  (∀ e, dwarf = inl e → EvalSymbol K img dwarf name s = Done (None, Some (Raised e)) s) ∧
  (∀ data, dwarf = inr data → Forall (passed_over data name) (Reader data) →
     EvalSymbol K img dwarf name s
     = Done (None, Some (Errorf_name "could not find symbol value for %s" name)) s).
Proof.
  split.
  - intros e ->. reflexivity.
  - intros data -> Hall. unfold EvalSymbol.
    rewrite <- (app_nil_r (Reader data)).
    rewrite EvalSymbol_entries_skip by exact Hall. reflexivity.
Qed.

(** X22. [EvalSymbol] stops at the first entry it does not walk past,
    in the reader's order, whatever follows it.  An error that came
    with that entry, or the error of resolving its type, is returned.
    Otherwise the entry is a variable or parameter of that name with a
    type and a location: the result is what [extractValue] gives for it
    from offset 0, an error as it is, a value with the name and the
    type's name; later entries of the same name are never tried. *)
Theorem EvalSymbol_first_match data name pre entry err post s :
  Reader data = pre ++ (entry, err) :: post →
  Forall (passed_over data name) pre →
  (∀ e, err = Some e →
     EvalSymbol K img (inr data) name s = Done (None, Some (Raised e)) s) ∧
  (∀ offset e,
     err = None → is_variable_tag (Tag entry) = true → AttrName entry = Some name →
     AttrType entry = Some offset → TypeAt data offset = inl e →
     EvalSymbol K img (inr data) name s = Done (None, Some (Raised e)) s) ∧
  (∀ offset t instructions,
     err = None → is_variable_tag (Tag entry) = true → AttrName entry = Some name →
     AttrType entry = Some offset → TypeAt data offset = inr t →
     AttrLocation entry = Some instructions →
     EvalSymbol K img (inr data) name s
     = match extractValue K img t instructions 0 s with
       | Done (val, None) s' =>
         Done (Some (mkVariable name val (TypeString data t)), None) s'
       | Done (_, Some e) s' => Done (None, Some (Raised e)) s'
       | Panic msg => Panic msg
       | OutOfFuel => OutOfFuel
       end).
Proof.
  intros HR Hpre. unfold EvalSymbol. rewrite HR.
  rewrite EvalSymbol_entries_skip by exact Hpre.
  split; [|split].
  - intros e ->. reflexivity.
  - intros offset e -> Htag Hname Htype Ht. cbn [EvalSymbol_entries].
    rewrite Htag, Hname. cbn [negb]. rewrite bool_decide_eq_true_2 by reflexivity.
    cbn [negb]. rewrite Htype, Ht. reflexivity.
  - intros offset t instructions -> Htag Hname Htype Ht Hloc. cbn [EvalSymbol_entries].
    rewrite Htag, Hname. cbn [negb]. rewrite bool_decide_eq_true_2 by reflexivity.
    cbn [negb]. rewrite Htype, Ht, Hloc.
    unfold mbind at 1, M_bind at 1.
    destruct (extractValue K img t instructions 0 s) as [[val [e|]] s'| |]; reflexivity.
Qed.

End SymbolTheorems.

Section CommandLine.

Lemma Split_nonempty s sep : Split s sep ≠ [].
Proof.
  destruct s as [|c rest]; cbn; [discriminate|].
  destruct (decide (c = sep)); [discriminate|].
  destruct (Split rest sep); discriminate.
Qed.

Lemma Split_concat s sep :
  String.concat (String sep EmptyString) (Split s sep) = s.
Proof.
  induction s as [|c rest IH]; [reflexivity|]. cbn [Split].
  pose proof (Split_nonempty rest sep) as Hne.
  destruct (decide (c = sep)) as [->|Hc].
  - destruct (Split rest sep) as [|h t] eqn:E; [contradiction|].
    change (String sep (String.concat (String sep EmptyString) (h :: t))
            = String sep rest).
    f_equal. exact IH.
  - destruct (Split rest sep) as [|h t] eqn:E; [contradiction|].
    destruct t as [|h' t']; cbn in IH |- *; rewrite <- IH; reflexivity.
Qed.

Lemma Split_pieces s sep :
  Forall (λ piece, count_byte sep piece = 0%nat) (Split s sep) ∧
  length (Split s sep) = S (count_byte sep s).
Proof.
  induction s as [|c rest [IH1 IH2]]; cbn [Split count_byte].
  - split; [repeat constructor|reflexivity].
  - destruct (decide (c = sep)) as [->|Hc].
    + split; [constructor; [reflexivity|exact IH1]|]. cbn. rewrite IH2. reflexivity.
    + destruct (Split rest sep) as [|h t] eqn:E.
      { cbn in IH2. discriminate. }
      inversion IH1 as [|? ? Hh Ht]; subst. split.
      * constructor; [|exact Ht]. cbn. destruct (decide (c = sep)); [contradiction|].
        exact Hh.
      * cbn in IH2 |- *. exact IH2.
Qed.

(** X23. [parseCommand] never panics: it always yields a command and
    arguments.  Joined with single spaces they give the line back;
    neither the command nor an argument holds a space; and there are as
    many arguments as the line has spaces (so two spaces in a row give
    an empty argument). *)
Theorem parseCommand_roundtrip cmdstr :
  ∃ cmd args,
    parseCommand cmdstr = Some (cmd, args) ∧
    String.concat " " (cmd :: args) = cmdstr ∧
    count_byte Ascii.Space cmd = 0%nat ∧
    Forall (λ arg, count_byte Ascii.Space arg = 0%nat) args ∧
    length args = count_byte Ascii.Space cmdstr.
Proof.
  unfold parseCommand. cbv zeta.
  pose proof (Split_concat cmdstr Ascii.Space) as Hc.
  destruct (Split_pieces cmdstr Ascii.Space) as [Hp Hl].
  destruct (Split cmdstr Ascii.Space) as [|cmd args]; [discriminate|].
  exists cmd, args. split; [reflexivity|]. split; [exact Hc|].
  apply Forall_cons_1 in Hp. destruct Hp as [Hcmd Hargs].
  split; [exact Hcmd|]. split; [exact Hargs|].
  cbn in Hl. lia.
Qed.

End CommandLine.

(** ** More runs on the scripted tracee *)

Section MoreRuns.

Import Fixture.

(** The scripted tracee's memory behaves. *)
Lemma sim_faithful_memory : faithful_memory SimKernel.
Proof.
  split; [exact sim_poke_then_peek|]. split.
  - intros a b w w' a'. cbn. unfold sim_poke, sim_peek.
    destruct (sim_alive w); [|discriminate]. cbn.
    destruct (sim_mem w !! a); [|discriminate].
    intros [= <-] Hne. cbn. rewrite lookup_insert_ne by congruence. reflexivity.
  - intros a d w e w' a'. cbn. unfold sim_poke.
    destruct (sim_alive w); [|intros [= _ <-]; reflexivity].
    destruct (sim_write a d (sim_mem w)); [discriminate|].
    intros [= _ <-]. reflexivity.
Qed.

Lemma table_wf_of_empty {W} (s : DebuggedProcess W) :
  BreakPoints s = ∅ → table_wf (BreakPoints s).
Proof. intros ->. exact table_wf_empty. Qed.

Lemma traps_in_place_of_empty {W} (K : Kernel W) (s : DebuggedProcess W) :
  BreakPoints s = ∅ → traps_in_place K s.
Proof. intros H k bp. rewrite H, lookup_empty. discriminate. Qed.

Lemma Break_records_of_empty (im : Image) {W} (s : DebuggedProcess W) :
  BreakPoints s = ∅ → map_Forall (Break_record im) (BreakPoints s).
Proof. intros ->. apply map_Forall_empty. Qed.

Lemma broken_records : map_Forall (Break_record img) (BreakPoints broken).
Proof.
  apply map_Forall_insert_2; [|apply map_Forall_empty].
  exists "main.go", 11, (mkFunc "main.main" 0x1000), 0x90.
  repeat (apply conj); [reflexivity|reflexivity|discriminate].
Qed.

(** [Next] into a callee that exits leaves a temporary breakpoint behind;
    its record is one [Break] made. *)
Lemma engine_keeps_Break_records_witness :
  map_Forall (Break_record img) (BreakPoints (run (Next SimKernel img 10%nat) callee_exits)).
Proof.
  exact (proj2 (proj2 (proj2 (proj2 (engine_keeps_Break_records SimKernel img))))
           10%nat callee_exits None (run (Next SimKernel img 10%nat) callee_exits)
           (Break_records_of_empty img callee_exits eq_refl)
           ltac:(vm_compute; reflexivity)).
Defined.

(** [Break(0x1010)], then [Clear(0x1010)]: the trap is in place, then the
    [nop] is back. *)
Lemma Break_Clear_keep_traps_witness :
  traps_in_place SimKernel broken ∧
  traps_in_place SimKernel (run (Clear SimKernel 0x1010) broken) ∧
  ∃ bp b, Some (bp_main 0x1010) = Some bp ∧ OriginalData bp = [b] ∧ b ≠ 0xCC ∧
          peek_byte SimKernel 0x1010 (tracee (run (Clear SimKernel 0x1010) broken))
          = inr b.
Proof.
  pose proof (proj1 (Break_Clear_keep_traps SimKernel img sim_faithful_memory)
                0x1010 fresh (Some (bp_main 0x1010), None) broken
                (traps_in_place_of_empty SimKernel fresh eq_refl)
                ltac:(vm_compute; reflexivity)) as H1.
  pose proof (proj2 (Break_Clear_keep_traps SimKernel img sim_faithful_memory)
                0x1010 broken (Some (bp_main 0x1010)) None
                (run (Clear SimKernel 0x1010) broken)
                H1
                broken_records
                ltac:(vm_compute; reflexivity)) as H2.
  exact (conj H1 (conj (proj1 H2) (proj2 H2 eq_refl))).
Defined.

(** [Break(0x1010)] on an empty table, and a [Clear] of an address
    without a record. *)
Lemma Break_Clear_local_witness :
  ((∀ k, k ≠ 0x1010 → BreakPoints broken !! k = BreakPoints fresh !! k) ∧
   ∃ bp, Some (bp_main 0x1010) = Some bp ∧ Addr bp = 0x1010 ∧
         BreakPoints broken !! 0x1010 = Some bp) ∧
  ((None : option BreakPoint) = None ∧ BreakPoints broken = BreakPoints broken).
Proof.
  pose proof (proj1 (Break_Clear_local SimKernel img)
                0x1010 fresh (Some (bp_main 0x1010)) None broken
                ltac:(vm_compute; reflexivity)) as H1.
  pose proof (proj2 (Break_Clear_local SimKernel img)
                0x2000 broken None (Some (Errorf_uint "No breakpoint currently set for %#v" 0x2000))
                broken
                ltac:(vm_compute; reflexivity)) as H2.
  exact (conj (conj (proj1 H1) (proj2 (proj2 H1) eq_refl))
              (proj1 (proj2 H2) (mk_is_Some _ _ eq_refl))).
Defined.

(** [Step] on a tracee that is gone, and on one with no breakpoint. *)
Lemma Step_without_trap_witness :
  Step SimKernel img gone
  = Done (Some (Errorf_err "Registers():" (SyscallError ESRCH))) (record KGetRegs gone) ∧
  ∃ res s' mid,
    Step SimKernel img two_stops = Done res s' ∧
    BreakPoints s' = BreakPoints two_stops ∧
    ktrace s' = ktrace two_stops ++ KGetRegs :: KSingleStep :: mid ∧
    Forall passive mid ∧
    (res = None ∨ ∃ e, res = Some (Errorf_text "step failed: " e)).
Proof.
  exact (conj
           (proj1 (Step_without_trap SimKernel img gone) ESRCH
              ltac:(vm_compute; reflexivity))
           (proj2 (Step_without_trap SimKernel img two_stops) (mkRegs 0x1000 0x7000)
              ltac:(vm_compute; reflexivity) ltac:(vm_compute; reflexivity))).
Defined.

Lemma table_wf_unmapped_trap : table_wf (BreakPoints unmapped_trap).
Proof. apply (table_wf_insert ∅ (bp_main 0x1050)), table_wf_empty. Qed.

Lemma table_wf_deaf_past_trap : table_wf (BreakPoints deaf_past_trap).
Proof. apply (table_wf_insert ∅ (bp_main 0x1010)), table_wf_empty. Qed.

(** The restoring write fails on unmapped memory; the register write
    fails on a kernel that refuses it. *)
Lemma Step_refused_before_resume_witness :
  Step SimKernel img unmapped_trap
  = Done (Some (SyscallError EIO))
      (mkDbp (mkRegs 0x1051 0x7000) None (BreakPoints unmapped_trap)
         (tracee unmapped_trap) []
         ([] ++ [KGetRegs; KPokeData 0x1050 [0x90]])) ∧
  Step deaf_kernel img deaf_past_trap
  = Done (Some (SyscallError EIO))
      (mkDbp (mkRegs 0x1010 0x7000) None (delete 0x1010 (BreakPoints deaf_past_trap))
         tt []
         ([] ++ [KGetRegs; KPokeData 0x1010 [0x90]; KSetRegs (mkRegs 0x1010 0x7000)])).
Proof.
  exact (conj
           (proj1 (Step_refused_before_resume SimKernel img unmapped_trap
                     (mkRegs 0x1051 0x7000) (bp_main 0x1050)
                     table_wf_unmapped_trap
                     ltac:(vm_compute; reflexivity) ltac:(vm_compute; reflexivity))
              EIO (tracee unmapped_trap) ltac:(vm_compute; reflexivity))
           (proj2 (Step_refused_before_resume deaf_kernel img deaf_past_trap
                     (mkRegs 0x1011 0x7000) (bp_main 0x1010)
                     table_wf_deaf_past_trap
                     ltac:(vm_compute; reflexivity) ltac:(vm_compute; reflexivity))
              tt EIO tt ltac:(vm_compute; reflexivity) ltac:(vm_compute; reflexivity))).
Defined.

(** [Step] over the trap at [0x1010], and [Continue] through two stops. *)
Lemma resume_ok_addresses_witness :
  dom (BreakPoints (run (Step SimKernel img) loop_back)) = dom (BreakPoints loop_back) ∧
  dom (BreakPoints (run (Continue SimKernel img) two_stops)) = dom (BreakPoints two_stops).
Proof.
  exact (conj
           (proj1 (resume_ok_addresses SimKernel img loop_back
                     (run (Step SimKernel img) loop_back))
              ltac:(vm_compute; reflexivity))
           (proj2 (resume_ok_addresses SimKernel img two_stops
                     (run (Continue SimKernel img) two_stops))
              ltac:(vm_compute; reflexivity))).
Defined.

(** No child to wait for, a wait that fails, an exit, and a stop on
    SIGSEGV. *)
Lemma handleResult_wait_witness :
  handleResult SimKernel None fresh
  = Done None (set_tracee (tracee fresh) (record KWait fresh)) ∧
  handleResult deaf_kernel None deaf_past_trap
  = Done (Some (SyscallError EIO)) (set_tracee tt (record KWait deaf_past_trap)) ∧
  handleResult SimKernel None (waiting 0)
  = Done None
      (set_ProcessState (Some 0)
         (set_tracee (sim_wait (tracee (waiting 0))).2 (record KWait (waiting 0)))) ∧
  handleResult SimKernel None (waiting SIGSEGV_stop)
  = Done None
      (print (StopSignal SIGSEGV_stop, Rip (mkRegs 0x1000 0x7000))
         (set_Regs (mkRegs 0x1000 0x7000)
            (record KGetRegs
               (set_ProcessState (Some SIGSEGV_stop)
                  (set_tracee (sim_wait (tracee (waiting SIGSEGV_stop))).2
                     (record KWait (waiting SIGSEGV_stop))))))).
Proof.
  exact (conj
           (proj1 (handleResult_wait SimKernel fresh) (tracee fresh)
              ltac:(vm_compute; reflexivity))
        (conj
           (proj1 (proj2 (handleResult_wait deaf_kernel deaf_past_trap)) EIO tt
              ltac:(vm_compute; reflexivity) ltac:(vm_compute; discriminate))
        (conj
           (proj1 (proj2 (proj2 (handleResult_wait SimKernel (waiting 0)))) 0
              (sim_wait (tracee (waiting 0))).2
              ltac:(vm_compute; reflexivity) ltac:(left; vm_compute; reflexivity))
           (proj2 (proj2 (proj2 (handleResult_wait SimKernel (waiting SIGSEGV_stop))))
              SIGSEGV_stop (sim_wait (tracee (waiting SIGSEGV_stop))).2
              (mkRegs 0x1000 0x7000)
              ltac:(vm_compute; reflexivity) ltac:(vm_compute; reflexivity)
              ltac:(vm_compute; reflexivity) ltac:(vm_compute; reflexivity))))).
Defined.

(** No record at [0x1010]; a record at [0x1010] with the tracee at
    [0x1011]. *)
Lemma clearTempBreakpoint_spec_witness :
  clearTempBreakpoint SimKernel 0x1010 fresh = Done None fresh ∧
  clearTempBreakpoint SimKernel 0x1010 (past_trap [])
  = Done (SyscallError <$> None)
      (mkDbp (SetPC (mkRegs 0x1011 0x7000) 0x1010) None
         (delete 0x1010 (BreakPoints (past_trap [])))
         (pc_rewound (past_trap [])) []
         ([] ++ [KGetRegs; KPokeData 0x1010 [0x90];
                 KSetRegs (SetPC (mkRegs 0x1011 0x7000) 0x1010)])).
Proof.
  exact (conj
           (proj1 (clearTempBreakpoint_spec SimKernel 0x1010 fresh)
              ltac:(vm_compute; reflexivity))
           (proj2 (clearTempBreakpoint_spec SimKernel 0x1010 (past_trap []))
              (bp_main 0x1010) (mkRegs 0x1011 0x7000) (trap_lifted (past_trap []))
              None (pc_rewound (past_trap []))
              ltac:(vm_compute; reflexivity) ltac:(vm_compute; reflexivity)
              ltac:(vm_compute; reflexivity) ltac:(vm_compute; reflexivity)
              ltac:(vm_compute; reflexivity))).
Defined.



(** Out of [main.f] and back into [main.main]. *)
Lemma continueToReturnAddress_ok_witness :
  let s := run (Next_step SimKernel img) (loop_entry callee_returns) in
  let s' := run (continueToReturnAddress SimKernel img 10 0x3000 fde_main) s in
  table_wf (BreakPoints s') ∧
  dom (BreakPoints s') ⊆ dom (BreakPoints s) ∧
  (Cover fde_main 0x3000 = true ∧ s' = s ∨
   Cover fde_main match PtraceGetRegs SimKernel (tracee s') with
                  | inr r => Rip r
                  | inl _ => 0
                  end = true).
Proof.
  exact (continueToReturnAddress_ok SimKernel img 10 0x3000 fde_main
           (run (Next_step SimKernel img) (loop_entry callee_returns))
           (run (continueToReturnAddress SimKernel img 10 0x3000 fde_main)
              (run (Next_step SimKernel img) (loop_entry callee_returns)))
           (table_wf_of_empty (run (Next_step SimKernel img) (loop_entry callee_returns))
              ltac:(vm_compute; reflexivity))
           ltac:(vm_compute; reflexivity)).
Defined.

(** [Next] over the call of [main.f] stops on line 11. *)
Lemma Next_ok_line_witness :
  (PCToLine img (Rip (mkRegs 0x1010 0x7000))).1.2
  ≠ (PCToLine img match BreakPoints callee_returns !! u64 (Rip (mkRegs 0x1000 0x7000) - 1) with
                  | Some _ => u64 (Rip (mkRegs 0x1000 0x7000) - 1)
                  | None => Rip (mkRegs 0x1000 0x7000)
                  end).1.2.
Proof.
  exact (Next_ok_line SimKernel img 10 callee_returns
           (run (Next SimKernel img 10) callee_returns)
           (mkRegs 0x1000 0x7000) (mkRegs 0x1010 0x7000)
           ltac:(vm_compute; reflexivity) ltac:(vm_compute; reflexivity)
           ltac:(vm_compute; reflexivity)).
Defined.

(** [Next] when the kernel refuses the single-step. *)
Lemma Next_errors_witness :
  formatted (Errorf_text "next stepping failed: "
               (Errorf_text "step failed: " (SyscallError EIO))) ∨
  ∃ pc, FDEForPC img pc
        = inl (Errorf_text "next stepping failed: "
                 (Errorf_text "step failed: " (SyscallError EIO))).
Proof.
  exact (Next_errors SimKernel img 10 (at_main [Refuse EIO])
           (Errorf_text "next stepping failed: "
              (Errorf_text "step failed: " (SyscallError EIO)))
           (run (Next SimKernel img 10) (at_main [Refuse EIO]))
           ltac:(vm_compute; reflexivity)).
Defined.

(** The string [foo]. *)
Lemma readString_truncates_at_NUL_witness :
  readString SimKernel img 0x7000 with_short_string
  = Done (string_of_bytes [0x66; 0x6F; 0x6F], None)
         (record (KPeekData (Uint64 (word 0x7010)) 16)
            (record (KPeekData 0x7000 8) with_short_string)) ∧
  (length [0x66; 0x6F; 0x6F] < 16)%nat.
Proof.
  exact (readString_truncates_at_NUL SimKernel img 0x7000 with_short_string
           (word 0x7010) [0x66; 0x6F; 0x6F] (replicate 12 0)
           ltac:(vm_compute; discriminate)
           ltac:(vm_compute; reflexivity) ltac:(vm_compute; reflexivity)
           ltac:(compute_done)).
Defined.

(** Twenty bytes make two elements. *)
Lemma readIntArray_count_witness :
  readIntArray SimKernel img 0x7020 (-8) with_slice = Panic makeslice_cap_out_of_range ∧
  readIntArray SimKernel img 0x7020 20 with_slice
  = Done ("[" ++ fmt_d (20 / 8) ++ "]int "
          ++ fmt_d_slice (read_uint64s (word 1 ++ word 2 ++ [3; 0; 0; 0])), None)%string
         (record (KPeekData 0x7020 (Z.to_nat 20)) with_slice) ∧
  length (read_uint64s (word 1 ++ word 2 ++ [3; 0; 0; 0])) = Z.to_nat (20 / 8).
Proof.
  exact (conj
           (proj1 (readIntArray_count SimKernel img 0x7020 (-8) with_slice
                     ltac:(vm_compute; reflexivity))
              ltac:(vm_compute; reflexivity))
           (proj2 (readIntArray_count SimKernel img 0x7020 20 with_slice
                     ltac:(vm_compute; reflexivity))
              (word 1 ++ word 2 ++ [3; 0; 0; 0])
              ltac:(vm_compute; discriminate) ltac:(vm_compute; discriminate)
              ltac:(vm_compute; reflexivity))).
Defined.

(** A tracee that is gone, a PC without frame entry, a location
    expression that cannot be run. *)
Lemma extractValue_fails_early_witness :
  extractValue SimKernel img (IntType "int") [] 0 gone
  = Done ("", Some (Errorf_err "Registers():" (SyscallError ESRCH))) (record KGetRegs gone) ∧
  extractValue SimKernel img (IntType "int") [] 0 nowhere
  = Done ("", Some (OracleError "no frame description entry"))
         (set_Regs (mkRegs 0x5000 0x7000) (record KGetRegs nowhere)) ∧
  extractValue SimKernel img_no_location (IntType "int") [0x91] 0 with_slice
  = Done ("", Some (OracleError "bad location expression"))
         (set_Regs (mkRegs 0x1000 0x7000) (record KGetRegs with_slice)).
Proof.
  exact (conj
           (proj1 (extractValue_fails_early SimKernel img (IntType "int") [] 0 gone)
              ESRCH ltac:(vm_compute; reflexivity))
        (conj
           (proj1 (proj2 (extractValue_fails_early SimKernel img (IntType "int") [] 0 nowhere))
              (mkRegs 0x5000 0x7000) (OracleError "no frame description entry")
              ltac:(vm_compute; reflexivity) ltac:(vm_compute; reflexivity))
           (proj2 (proj2 (extractValue_fails_early SimKernel img_no_location
                            (IntType "int") [0x91] 0 with_slice))
              (mkRegs 0x1000 0x7000) fde_main (OracleError "bad location expression")
              ltac:(vm_compute; reflexivity) ltac:(vm_compute; reflexivity)
              eq_refl ltac:(vm_compute; reflexivity)))).
Defined.

(** A typedef of [int]. *)
Lemma extractValue_typedef_witness :
  extractValue SimKernel img (TypedefType "Celsius" (IntType "int")) [] 0 with_slice
  = extractValue SimKernel img (IntType "int") [] 0 with_slice.
Proof.
  exact (extractValue_typedef SimKernel img "Celsius" (IntType "int") [] 0 with_slice
           ltac:(discriminate)).
Defined.

(** Types without a case. *)
Lemma extractValue_unsupported_witness :
  (∀ n, extractValue SimKernel img (OtherType n) [] 0 with_slice
        = Done ("", Some (Errorf_type "could not find value for type %s" (OtherType n)))
               (set_Regs (mkRegs 0x1000 0x7000) (record KGetRegs with_slice))) ∧
  (∀ n n' u, extractValue SimKernel img (TypedefType n (TypedefType n' u)) [] 0 with_slice
        = Done ("", Some (Errorf_type "could not find value for type %s"
                            (TypedefType n' u)))
               (set_Regs (mkRegs 0x1000 0x7000) (record KGetRegs with_slice))).
Proof.
  exact (extractValue_unsupported SimKernel img [] 0 with_slice
           (mkRegs 0x1000 0x7000) fde_main
           ltac:(vm_compute; reflexivity) ltac:(vm_compute; reflexivity)
           ltac:(intros _; exists 0; vm_compute; reflexivity)).
Defined.

(** A pointer to -2. *)
Lemma extractValue_pointer_to_int_witness :
  extractValue SimKernel img (PtrType (IntType "int")) [] 0 with_pointer
  = Done ("*" ++ fmt_d (i64 (Uint64 (word (2 ^ 64 - 2)))), None)%string
         (mkDbp (mkRegs 0x1000 0x7000) None ∅ (tracee with_pointer) []
            ([] ++ [KGetRegs; KPeekData (u64 (i64 (i64 0x7000 + 0))) 8; KGetRegs;
                    KPeekData (u64 (i64 (Uint64 (word 0x7010)))) 8])).
Proof.
  exact (extractValue_pointer_to_int SimKernel img "int" [] with_pointer
           (mkRegs 0x1000 0x7000) fde_main 0 (word 0x7010) (word (2 ^ 64 - 2))
           ltac:(vm_compute; discriminate)
           ltac:(vm_compute; reflexivity) ltac:(vm_compute; reflexivity)
           ltac:(vm_compute; reflexivity) ltac:(vm_compute; reflexivity)
           ltac:(vm_compute; discriminate) ltac:(vm_compute; reflexivity)).
Defined.

(** A nil pointer, with an evaluator that refuses the empty expression
    and with one that takes it. *)
Lemma extractValue_nil_pointer_witness :
  extractValue SimKernel img_strict (PtrType (IntType "int")) [0x91] 0 with_nil_pointer
  = Done ("", Some (OracleError "empty location expression"))
      (mkDbp (mkRegs 0x1000 0x7000) None ∅ (tracee with_nil_pointer) []
         ([] ++ [KGetRegs; KPeekData (u64 (i64 (i64 0x7000 + 0))) 8; KGetRegs])) ∧
  extractValue SimKernel img (PtrType (IntType "int")) [0x91] 0 with_nil_pointer
  = Done ("*" ++ fmt_d (i64 (Uint64 (word 0))), None)%string
      (mkDbp (mkRegs 0x1000 0x7000) None ∅ (tracee with_nil_pointer) []
         ([] ++ [KGetRegs; KPeekData (u64 (i64 (i64 0x7000 + 0))) 8; KGetRegs;
                 KPeekData (u64 (i64 (i64 0x7000 + 0))) 8])).
Proof.
  exact (conj
           (proj1 (extractValue_nil_pointer SimKernel img_strict "int" [0x91] with_nil_pointer
                     (mkRegs 0x1000 0x7000) fde_main 0 (word 0) 0 (word 0)
                     ltac:(vm_compute; discriminate)
                     ltac:(vm_compute; reflexivity) ltac:(vm_compute; reflexivity)
                     ltac:(vm_compute; reflexivity) ltac:(vm_compute; reflexivity)
                     ltac:(vm_compute; reflexivity))
              (OracleError "empty location expression") ltac:(vm_compute; reflexivity))
           (proj2 (extractValue_nil_pointer SimKernel img "int" [0x91] with_nil_pointer
                     (mkRegs 0x1000 0x7000) fde_main 0 (word 0) 0 (word 0)
                     ltac:(vm_compute; discriminate)
                     ltac:(vm_compute; reflexivity) ltac:(vm_compute; reflexivity)
                     ltac:(vm_compute; reflexivity) ltac:(vm_compute; reflexivity)
                     ltac:(vm_compute; reflexivity))
              ltac:(vm_compute; reflexivity) ltac:(vm_compute; reflexivity))).
Defined.

Lemma pair_fields :
  Forall2 (int_field SimKernel (tracee with_slice) (i64 (i64 0x7000 + 0)))
    [mkStructField "a" 0 (IntType "int"); mkStructField "b" 8 (IntType "int")]
    ["28704"; "5"].
Proof.
  constructor.
  { exists "a", 0, "int". repeat (apply conj);
      [reflexivity | vm_compute; discriminate | vm_compute; reflexivity]. }
  constructor; [|constructor].
  exists "b", 8, "int". repeat (apply conj);
    [reflexivity | vm_compute; discriminate | vm_compute; reflexivity].
Qed.

(** A struct of two integers over the slice header. *)
Lemma extractValue_struct_of_ints_witness :
  ∃ s',
    extractValue SimKernel img
      (StructType "pair"
         [mkStructField "a" 0 (IntType "int"); mkStructField "b" 8 (IntType "int")])
      [] 0 with_slice
    = Done (("pair" ++ " {"
             ++ String.concat ", "
                  (zip_with (λ f v, field_name f ++ ": " ++ v)
                     [mkStructField "a" 0 (IntType "int");
                      mkStructField "b" 8 (IntType "int")]
                     ["28704"; "5"])
             ++ "}")%string, None) s' ∧
    tracee s' = tracee with_slice ∧ BreakPoints s' = BreakPoints with_slice.
Proof.
  exact (extractValue_struct_of_ints SimKernel img "pair"
           [mkStructField "a" 0 (IntType "int"); mkStructField "b" 8 (IntType "int")]
           ["28704"; "5"] [] with_slice (mkRegs 0x1000 0x7000) fde_main 0
           ltac:(vm_compute; discriminate)
           ltac:(discriminate) ltac:(discriminate)
           ltac:(vm_compute; reflexivity) ltac:(vm_compute; reflexivity)
           ltac:(vm_compute; reflexivity)
           pair_fields).
Defined.

Lemma passed_over_other_name data name entry :
  AttrName entry ≠ Some name → passed_over data name (entry, None).
Proof. intros H. split; [reflexivity|]. right. left. exact H. Qed.

Lemma passed_over_no_location data name entry offset t :
  AttrType entry = Some offset → TypeAt data offset = inr t → AttrLocation entry = None →
  passed_over data name (entry, None).
Proof. intros H1 H2 H3. split; [reflexivity|]. right. right. right. eauto. Qed.

Lemma a5_walked_past data :
  TypeAt data 1 = inr slice_type →
  Forall (passed_over data "a5") (take 2 (Reader debug_info)).
Proof.
  intros HT. constructor.
  { apply passed_over_other_name. discriminate. }
  constructor; [|constructor].
  eapply passed_over_no_location; [reflexivity|exact HT|reflexivity].
Qed.

Lemma zz_walked_past : Forall (passed_over debug_info "zz") (take 4 (Reader debug_info)).
Proof.
  repeat (constructor; [apply passed_over_other_name; discriminate|]).
  constructor.
Qed.

(** No debug information; a variable that was optimised away. *)
Lemma EvalSymbol_not_found_witness :
  EvalSymbol SimKernel img (inl (OracleError "no debug info")) "a5" with_slice
  = Done (None, Some (Raised (OracleError "no debug info"))) with_slice ∧
  EvalSymbol SimKernel img (inr stripped_info) "a5" with_slice
  = Done (None, Some (Errorf_name "could not find symbol value for %s" "a5")) with_slice.
Proof.
  exact (conj
           (proj1 (EvalSymbol_not_found SimKernel img
                     (inl (OracleError "no debug info")) "a5" with_slice)
              (OracleError "no debug info") eq_refl)
           (proj2 (EvalSymbol_not_found SimKernel img (inr stripped_info) "a5" with_slice)
              stripped_info eq_refl (a5_walked_past stripped_info eq_refl))).
Defined.

(** A name only the failing entry stops for; the first [a5] that has a
    location. *)
Lemma EvalSymbol_first_match_witness :
  EvalSymbol SimKernel img (inr debug_info) "zz" with_slice
  = Done (None, Some (Raised (OracleError "decoding entry"))) with_slice ∧
  EvalSymbol SimKernel img (inr debug_info) "a5" with_slice
  = match extractValue SimKernel img slice_type [0x91] 0 with_slice with
    | Done (val, None) s' =>
      Done (Some (mkVariable "a5" val (TypeString debug_info slice_type)), None) s'
    | Done (_, Some e) s' => Done (None, Some (Raised e)) s'
    | Panic msg => Panic msg
    | OutOfFuel => OutOfFuel
    end.
Proof.
  exact (conj
           (proj1 (EvalSymbol_first_match SimKernel img debug_info "zz"
                     (take 4 (Reader debug_info))
                     (mkEntry TagVariable (Some "broken") None None)
                     (Some (OracleError "decoding entry")) [] with_slice
                     eq_refl zz_walked_past)
              (OracleError "decoding entry") eq_refl)
           (proj2 (proj2 (EvalSymbol_first_match SimKernel img debug_info "a5"
                            (take 2 (Reader debug_info))
                            (mkEntry TagVariable (Some "a5") (Some 1) (Some [0x91]))
                            None (drop 3 (Reader debug_info)) with_slice
                            eq_refl (a5_walked_past debug_info eq_refl)))
              1 slice_type [0x91] eq_refl eq_refl eq_refl eq_refl eq_refl eq_refl)).
Defined.

End MoreRuns.
